(** * The markdown section parser of skid-homework

    A shallow embedding of the response parser (the second part of
    [src/hooks/use-native-camera.ts]: [MarkdownSectionParser],
    [parseSolveResponse], [parseImproveResponse]) and the properties its
    specification states about it.

    - [JsString]: the JavaScript string primitives the parser calls
      ([trim], [split] on a literal, the anchored fence regular expression).
    - [Marked]: the block tokens of the [marked] library and a model of its
      block lexer on a small markdown fragment.
    - Section [Parser]: the parser itself, over an arbitrary tokenizer. *)

From Stdlib Require Import Ascii.
From Stdlib Require DecimalString.
From stdpp Require Import gmap strings list fin_maps.

Open Scope string_scope.
Open Scope list_scope.

(* String concatenation, written [+:+], unfolds on a constructor. *)
#[local] Arguments String.append !_ _ / : simpl nomatch.

(** ** JavaScript strings

    A string is a sequence of code units; the model keeps the code units
    below 256, which is enough for every character class the parser tests
    (the whitespace of [trim] and [\s], the word characters of [\w], the
    backtick, the newline, the dash of the separator). *)
Module JsString.

(** [WhiteSpace] and [LineTerminator] code units below 256: TAB, LF, VT,
    FF, CR, SPACE and NBSP.  This is the class stripped by
    [String.prototype.trim] and matched by [\s]. *)
Definition isWhiteSpace (c : ascii) : bool :=
  let n := nat_of_ascii c in
  (n =? 9)%nat || (n =? 10)%nat || (n =? 11)%nat || (n =? 12)%nat
  || (n =? 13)%nat || (n =? 32)%nat || (n =? 160)%nat.

(** The class [\w]: ASCII letters, digits and the underscore. *)
Definition isWordChar (c : ascii) : bool :=
  let n := nat_of_ascii c in
  ((48 <=? n)%nat && (n <=? 57)%nat) || ((65 <=? n)%nat && (n <=? 90)%nat)
  || ((97 <=? n)%nat && (n <=? 122)%nat) || (n =? 95)%nat.

#[global] Arguments isWhiteSpace : simpl never.
#[global] Arguments isWordChar : simpl never.

Definition isEmpty (s : string) : bool :=
  match s with "" => true | String _ _ => false end.

(** [Boolean(s)]: a string is truthy when it is not empty. *)
Definition truthy (s : string) : bool := negb (isEmpty s).

(** Longest prefix of characters in the class [p] removed. *)
Fixpoint dropWhile (p : ascii → bool) (s : string) : string :=
  match s with
  | "" => ""
  | String c s' => if p c then dropWhile p s' else s
  end.

(** Longest suffix of characters in the class [p] removed. *)
Fixpoint dropWhileEnd (p : ascii → bool) (s : string) : string :=
  match s with
  | "" => ""
  | String c s' =>
      let r := dropWhileEnd p s' in
      if p c && isEmpty r then "" else String c r
  end.

Definition trimStart (s : string) : string := dropWhile isWhiteSpace s.
Definition trimEnd (s : string) : string := dropWhileEnd isWhiteSpace s.

(** [s.trim()] *)
Definition trim (s : string) : string := trimEnd (trimStart s).

Fixpoint stripPrefix (p s : string) : option string :=
  match p, s with
  | "", _ => Some s
  | String a p', String b s' =>
      if Ascii.eqb a b then stripPrefix p' s' else None
  | String _ _, "" => None
  end.

(** [stripSuffix p s = Some g] exactly when [s = g +:+ p]. *)
Fixpoint stripSuffix (p s : string) : option string :=
  if String.eqb s p then Some ""
  else match s with
       | "" => None
       | String c s' => String c <$> stripSuffix p s'
       end.

Definition startsWith (p s : string) : bool := String.prefix p s.

Definition endsWith (p s : string) : bool :=
  match stripSuffix p s with Some _ => true | None => false end.

(** [s.split(sep)] for a non-empty literal [sep]: the scan cuts at the
    leftmost occurrence of [sep] and resumes after it.  [skip] counts the
    characters of the occurrence still to be passed over. *)
Fixpoint split_go (sep : string) (skip : nat) (s : string) : list string :=
  match s with
  | "" => [""]
  | String c s' =>
      match skip with
      | S k => split_go sep k s'
      | O =>
          if String.prefix sep s
          then "" :: split_go sep (String.length sep - 1) s'
          else match split_go sep 0 s' with
               | h :: t => String c h :: t
               | [] => [String c ""]
               end
      end
  end.

Definition split (sep s : string) : list string := split_go sep 0 s.

(** [l.join("")] *)
Fixpoint concat (l : list string) : string :=
  match l with
  | [] => ""
  | s :: l' => s +:+ concat l'
  end.

End JsString.

Import JsString.

(** ** Tokens of [marked] *)
Module Marked.

(** The kinds of block token other than a heading. The parser only ever
    reads their [raw] text. *)
Inductive BlockKind : Set :=
  | space | paragraph | code | blockquote | list_ | html | hr | table | other.

(** [Token] of [marked]: a heading carries [depth], [text] and [raw];
    of the other tokens the parser reads [raw] alone. *)
Inductive Token : Set :=
  | Heading (depth : nat) (text : string) (raw : string)
  | Block (kind : BlockKind) (raw : string).

Definition raw (t : Token) : string :=
  match t with
  | Heading _ _ r => r
  | Block _ r => r
  end.

(** [token.type === "heading" && token.depth === d] *)
Definition isHeading (d : nat) (t : Token) : bool :=
  match t with
  | Heading d' _ _ => (d' =? d)%nat
  | Block _ _ => false
  end.

(** [token.text] of a heading of depth [d]. *)
Definition headingText (d : nat) (t : Token) : option string :=
  match t with
  | Heading d' text _ => if (d' =? d)%nat then Some text else None
  | Block _ _ => None
  end.

(** *** A model of the block lexer

    [marked] is a dependency of the repository, not part of it.  The
    parser is defined and verified over an arbitrary [lexer] (Section
    [Parser]); the model below is used to run it on the sample inputs of
    the specification. *)

Definition LF : ascii := "010".
Definition CR : ascii := "013".

(** [src.replace(/\r\n|\r/g, "\n")], the first thing the lexer does. *)
Fixpoint normalize (s : string) : string :=
  match s with
  | "" => ""
  | String c s' =>
      if Ascii.eqb c CR then
        match s' with
        | String c' s'' =>
            if Ascii.eqb c' LF then String LF (normalize s'')
            else String LF (normalize s')
        | "" => String LF ""
        end
      else String c (normalize s')
  end.

(** The lines of a text, each with its terminating newline. *)
Fixpoint lines (s : string) : list string :=
  match s with
  | "" => []
  | String c s' =>
      if Ascii.eqb c LF then String c "" :: lines s'
      else match lines s' with
           | l :: ls => String c l :: ls
           | [] => [String c ""]
           end
  end.

Definition isSpace (c : ascii) : bool := Ascii.eqb c " ".
Definition isBlankChar (c : ascii) : bool :=
  Ascii.eqb c " " || Ascii.eqb c "009".
Definition isHash (c : ascii) : bool := Ascii.eqb c "#".
Definition isLF (c : ascii) : bool := Ascii.eqb c LF.

(** At most [n] leading characters of the class [p] removed. *)
Fixpoint dropUpTo (n : nat) (p : ascii → bool) (s : string) : string :=
  match n, s with
  | S n', String c s' => if p c then dropUpTo n' p s' else s
  | _, _ => s
  end.

Fixpoint countWhile (p : ascii → bool) (s : string) : nat :=
  match s with
  | String c s' => if p c then S (countWhile p s') else 0
  | "" => 0
  end.

(** The [text] of an ATX heading from what follows the hashes: trimmed;
    a closing run of hashes is removed when it is the whole text or is
    preceded by a space. *)
Definition headingTextOf (rest : string) : string :=
  let text := trim rest in
  if endsWith "#" text then
    let trimmed := dropWhileEnd isHash text in
    if isEmpty trimmed || endsWith " " trimmed then trim trimmed else text
  else text.

(** An ATX heading line: up to three spaces, one to six hashes, then
    whitespace or the end of the line. *)
Definition headingOf (body : string) : option (nat * string) :=
  let b := dropUpTo 3 isSpace body in
  let d := countWhile isHash b in
  let rest := dropWhile isHash b in
  let boundary :=
    match rest with
    | "" => true
    | String c _ => isWhiteSpace c
    end in
  if (1 <=? d)%nat && (d <=? 6)%nat && boundary
  then Some (d, headingTextOf rest)
  else None.

Inductive Line : Set :=
  | BlankLine
  | HeadingLine (depth : nat) (text : string)
  | TextLine.

Definition classify (line : string) : Line :=
  let body := dropWhileEnd isLF line in
  if isEmpty (dropWhile isBlankChar body) then BlankLine
  else match headingOf body with
       | Some (d, text) => HeadingLine d text
       | None => TextLine
       end.

Fixpoint takeWhile (p : ascii → bool) (s : string) : string :=
  match s with
  | String c s' => if p c then String c (takeWhile p s') else ""
  | "" => ""
  end.

Fixpoint takeWhileEnd (p : ascii → bool) (s : string) : string :=
  match s with
  | String c s' =>
      if p c && isEmpty (dropWhileEnd p s') then s else takeWhileEnd p s'
  | "" => ""
  end.

(** The tokens of a sequence of lines.  A heading takes
    the run of newlines that follows it into its [raw]; text lines in a
    row form one paragraph, whose [raw] stops before the blank lines that
    follow; blank lines in a row form one [space] token. *)
Fixpoint blockTokens (ls : list string) : list Token :=
  match ls with
  | [] => []
  | l :: ls' =>
      let ts := blockTokens ls' in
      match classify l, ts with
      | HeadingLine d text, Block space r :: ts' =>
          let rest := dropWhile isLF r in
          Heading d text (l +:+ takeWhile isLF r)
            :: (if isEmpty rest then ts' else Block space rest :: ts')
      | HeadingLine d text, _ => Heading d text l :: ts
      | BlankLine, Block space r :: ts' => Block space (l +:+ r) :: ts'
      | BlankLine, _ => Block space l :: ts
      | TextLine, Block paragraph r :: ts' => Block paragraph (l +:+ r) :: ts'
      | TextLine, Block space r :: ts' =>
          Block paragraph (dropWhileEnd isLF l)
            :: Block space (takeWhileEnd isLF l +:+ r) :: ts'
      | TextLine, _ => Block paragraph l :: ts
      end
  end.

(** Modelled from the spec: the Block Tokenizer, [lexer] of [marked], which
    the repository imports and does not contain.  The model covers the
    markdown fragment of the documented response grammar: lines that are
    ATX headings, blank, or paragraph text (no fences, lists, block quotes,
    rules, tables, HTML or indented code).  A heading is one token carrying
    its depth and inline text.  The [raw] spans are consecutive and cover
    the newline-normalised input ([lexer_lossless]); how the text between
    two headings is cut into tokens cannot be observed by the parser
    ([sectionStep_merge], [stepStep_merge]). *)
Definition lexer (src : string) : list Token :=
  blockTokens (lines (normalize src)).

End Marked.

Import Marked.

(** ** Records of the application ([@/store/problems-store]) *)

Record ExplanationStep : Set := mkStep {
  title : string;
  content : string
}.

Record ProblemSolution : Set := mkProblem {
  problem : string;
  explanation : string;
  answer : string;
  steps : list ExplanationStep
}.

Record SolveResponse : Set := mkSolve {
  problems : list ProblemSolution
}.

Record ImproveResponse : Set := mkImprove {
  improved_answer : string;
  improved_explanation : string;
  improved_steps : list ExplanationStep
}.

(** ** The parser *)

(** The regular expression of [trimMarkdownFence] applied to [s]; the
    result is capture group 1.  Written piece by piece, the expression is
<<
      ^  ```  (?: \w+ \s* )?  \n?  ( [\s\S]* )  \n?  ```  $
>>
    (no flags, so the anchors are the two ends of [s]).  The pieces are
    matched in the order the backtracking matcher tries them: the opening
    fence, the greedy optional language tag (word characters, then
    whitespace), one optional newline, then the greedy group, which takes
    everything up to the last three characters and leaves the optional
    newline before the closing fence empty.  Neither the tag nor the
    newline can consume a backtick, so when this first attempt fails no
    other attempt succeeds. *)
Definition matchFence (s : string) : option string :=
  match stripPrefix "```" s with
  | None => None
  | Some r =>
      let afterTag :=
        match r with
        | String c _ =>
            if isWordChar c
            then dropWhile isWhiteSpace (dropWhile isWordChar r)
            else r
        | "" => r
        end in
      let afterNewline :=
        match afterTag with
        | String c r' => if Ascii.eqb c "010" then r' else afterTag
        | "" => afterTag
        end in
      stripSuffix "```" afterNewline
  end.

Definition trimMarkdownFence (content : string) : string :=
  match matchFence (trim content) with
  | Some body => trim body
  | None => trim content
  end.

(** [sections[k] || ""] *)
Definition orEmpty (v : option string) : string := default "" v.

(** A property write on the [sections] object.  The object is created by
    the literal [{}], so a write to ["__proto__"] reaches the inherited
    setter, which ignores a string: no own property appears. *)
Definition setProp (k v : string) (o : gmap string string) : gmap string string :=
  if decide (k = "__proto__") then o else <[k := v]> o.

(** [sections[k] += r]; reading an absent property gives [undefined],
    which [+] turns into the text ["undefined"]. *)
Definition appendProp (k r : string) (o : gmap string string) : gmap string string :=
  setProp k (default "undefined" (o !! k) +:+ r) o.

Definition SEPARATOR : string := "---PROBLEM_SEPARATOR---".

Section Parser.

(** [lexer] of [marked], the block tokenizer: any function from text to
    tokens. *)
Variable lexer : string → list Token.

(** State of the loop of [getSectionsByH3]: the [sections] object and
    [currentKey] ([None] is [null]). *)
Definition sectionStep (st : gmap string string * option string) (token : Token)
  : gmap string string * option string :=
  let '(sections, currentKey) := st in
  match headingText 3 token with
  | Some text =>
      let key := trim text in
      if truthy key then (setProp key "" sections, Some key)
      else (sections, Some key)
  | None =>
      match currentKey with
      | Some key =>
          if truthy key then (appendProp key (raw token) sections, currentKey)
          else st
      | None => st
      end
  end.

Definition getSectionsByH3 (tokens : list Token) : gmap string string :=
  let '(sections, _) := foldl sectionStep (∅, None) tokens in
  trim <$> sections.

(** [new MarkdownSectionParser(markdown).getSectionsByH3()] *)
Definition sectionsOf (markdown : string) : gmap string string :=
  getSectionsByH3 (lexer (trimMarkdownFence markdown)).

(** State of the loop of [parseSteps]: the [steps] array and
    [currentStep]. *)
Definition stepStep (st : list ExplanationStep * option ExplanationStep) (token : Token)
  : list ExplanationStep * option ExplanationStep :=
  let '(steps, currentStep) := st in
  match headingText 4 token with
  | Some text =>
      let steps' :=
        match currentStep with
        | Some s => steps ++ [s]
        | None => steps
        end in
      (steps', Some (mkStep (trim text) ""))
  | None =>
      match currentStep with
      | Some s => (steps, Some (mkStep (title s) (content s +:+ raw token)))
      | None => st
      end
  end.

Definition parseSteps (explanationText : string) : list ExplanationStep :=
  if isEmpty explanationText then []
  else
    let '(steps, currentStep) :=
      foldl stepStep ([], None) (lexer explanationText) in
    let steps :=
      match currentStep with
      | Some s => steps ++ [s]
      | None => steps
      end in
    let steps := (λ s, mkStep (title s) (trim (content s))) <$> steps in
    if (length steps =? 0)%nat && truthy (trim explanationText)
    then [mkStep "Detailed Explanation" (trim explanationText)]
    else steps.

(** The body of the loop of [parseSolveResponse]: what one chunk pushes
    onto [problems], if anything. *)
Definition parseChunk (chunk : string) : option ProblemSolution :=
  if isEmpty (trim chunk) then None
  else
    let sections := sectionsOf chunk in
    let problemText := orEmpty (sections !! "PROBLEM_TEXT") in
    let explanation := orEmpty (sections !! "EXPLANATION") in
    let answer := orEmpty (sections !! "ANSWER") in
    if truthy problemText || truthy explanation || truthy answer
    then Some (mkProblem problemText explanation answer (parseSteps explanation))
    else None.

(** The record returned when no chunk gave a problem. *)
Definition fallbackProblem (response : string) : ProblemSolution :=
  mkProblem "Error parsing problem text" response ""
            [mkStep "Error" response].

Definition parseSolveResponse (response : string) : SolveResponse :=
  let rawChunks := split SEPARATOR response in
  let problems := omap parseChunk rawChunks in
  if (length problems =? 0)%nat && truthy (trim response)
  then mkSolve [fallbackProblem response]
  else mkSolve problems.

(** [null] is [None]. *)
Definition parseImproveResponse (response : string) : option ImproveResponse :=
  let sections := sectionsOf response in
  let improvedExplanation := sections !! "IMPROVED_EXPLANATION" in
  let improvedAnswer := sections !! "IMPROVED_ANSWER" in
  if negb (truthy (orEmpty improvedExplanation)) && negb (truthy (orEmpty improvedAnswer))
  then None
  else Some (mkImprove (orEmpty improvedAnswer) (orEmpty improvedExplanation)
                       (parseSteps (orEmpty improvedExplanation))).

End Parser.

(** ** Notions used in the statements *)

(** [l.join("\n")] *)
Fixpoint joinLines (l : list string) : string :=
  match l with
  | [] => ""
  | [s] => s
  | s :: l' => s +:+ String LF (joinLines l')
  end.

(** [s.indexOf(sep)] *)
Definition indexOf (sep s : string) : option nat := String.index 0 sep s.

Fixpoint allChars (p : ascii → bool) (s : string) : bool :=
  match s with
  | "" => true
  | String c s' => p c && allChars p s'
  end.

(** The shape the fence expression accepts: the text opens with three
    backticks, closes with three backticks, and the two do not overlap. *)
Definition wrapperShaped (s : string) : bool :=
  startsWith "```" s && endsWith "```" s && (6 <=? String.length s)%nat.

(** [body] wrapped once in a fence with language tag [tag] (possibly
    empty). *)
Definition wrapFence (tag body : string) : string :=
  "```" +:+ tag +:+ String LF (body +:+ String LF "```").

Definition noHeading (d : nat) (tokens : list Token) : Prop :=
  Forall (λ t, isHeading d t = false) tokens.

Definition trimmed (s : string) : Prop := trim s = s.

Definition trimmedStep (s : ExplanationStep) : Prop :=
  trimmed (title s) ∧ trimmed (content s).

Definition fullyTrimmed (r : ProblemSolution) : Prop :=
  trimmed (problem r) ∧ trimmed (explanation r) ∧ trimmed (answer r)
  ∧ Forall trimmedStep (steps r).

(** A text that is empty or starts with a character outside [p]. *)
Definition headOutside (p : ascii → bool) (s : string) : Prop :=
  match s with
  | "" => True
  | String c _ => p c = false
  end.

(** The separator without its closing dashes. *)
Definition STEM : string := "---PROBLEM_SEPARATOR".

(** A well-formed single-problem text: it holds no separator and it
    parses into the problem [r]. *)
Definition singleProblem (lexer : string → list Token) (t : string)
  (r : ProblemSolution) : Prop :=
  indexOf SEPARATOR t = None ∧ parseChunk lexer t = Some r.

(** Invariant of the loop of [getSectionsByH3]: the current key, when it
    is one the loop writes under, already has a body. *)
Definition keyOpen (st : gmap string string * option string) : Prop :=
  ∀ k, st.2 = Some k → truthy k = true → k ≠ "__proto__" → is_Some (st.1 !! k).

(** Sample inputs of the specification. *)
Definition sampleSolve : string :=
  joinLines ["### PROBLEM_TEXT"; "P"; "### EXPLANATION"; "#### Step 1: A";
             "C1"; "#### Step 2: B"; "C2"; "### ANSWER"; "X"].

Definition sampleExplanation : string :=
  joinLines ["#### Step 1: A"; "C1"; "#### Step 2: B"; "C2"].

Definition sampleTwoAnswers : string :=
  joinLines ["### ANSWER"; "first"; "### ANSWER"; "second"].

Definition sampleTwoAnswersThen : string :=
  joinLines ["### ANSWER"; "first"; "### ANSWER"; "second";
             "### EXPLANATION"; "why"].

(** A single-problem text that ends with the stem of the separator. *)
Definition sampleStemEnd : string :=
  joinLines ["### ANSWER"; "x---PROBLEM_SEPARATOR"].

Definition sampleAnswerY : string := joinLines ["### ANSWER"; "y"].

Definition sampleTwoFences : string :=
  joinLines ["```a"; "x"; "```"; "between"; "```b"; "y"; "```"].

(** ** The OpenAI client ([src/ai/openai.ts]) *)
Module OpenAi.

Definition DEFAULT_OPENAI_ROOT : string := "https://api.openai.com/v1".

(** [(baseUrl ?? DEFAULT_OPENAI_ROOT).replace(/\/$/, "")]: without the
    [m] flag the anchor is the end of the text, so the expression matches
    one slash there, if any. *)
Definition normalizeBaseUrl (baseUrl : option string) : string :=
  let url := default DEFAULT_OPENAI_ROOT baseUrl in
  match stripSuffix "/" url with
  | Some rest => rest
  | None => url
  end.

Record ResponseOutputContent : Set := mkContent {
  text : option string
}.

Record ResponseOutput : Set := mkOutput {
  content : option (list ResponseOutputContent)
}.

Record FinalResponse : Set := mkFinal {
  output_text : option string;
  output : option (list ResponseOutput)
}.

Definition collectOutputText (output : option (list ResponseOutput)) : string :=
  match output with
  | None => ""
  | Some items =>
      trim (concat ((λ contentPart, default "" (text contentPart))
                    <$> (items ≫= λ item, default [] (content item))))
  end.

Definition extractTextFromResponse (response : FinalResponse) : string :=
  match output_text response with
  | Some t =>
      if truthy t && (0 <? String.length t)%nat then trim t
      else collectOutputText (output response)
  | None => collectOutputText (output response)
  end.

(** What the streaming loop reads of an event: [event.type], [event.delta]
    when it is a string, and [event.error?.message]. *)
Record StreamEvent : Set := mkEvent {
  type : option string;
  delta : option string;
  errorMessage : option string
}.

(** [Some d] when the event is a text delta carrying the string [d]. *)
Definition deltaOf (event : StreamEvent) : option string :=
  match type event with
  | Some ty => if String.eqb ty "response.output_text.delta" then delta event
               else None
  | None => None
  end.

Definition isError (event : StreamEvent) : bool :=
  match type event with
  | Some ty => String.eqb ty "response.error"
  | None => false
  end.

Inductive Result : Set :=
  | Threw (message : string)
  | Returned (value : string).

(** The outcome of a call: the arguments [callback] was called with (when
    one is given), in order, whether the request was aborted, and the
    result. *)
Record Outcome : Set := mkOutcome {
  delivered : list string;
  aborted : bool;
  result : Result
}.

(** The [for await] loop shared by [sendMedia] and [sendChat].  Each event
    comes with the value [Date.now()] has at the end of its iteration;
    times are whole milliseconds. *)
Fixpoint streamLoop (maxPollMs startTime : Z) (events : list (StreamEvent * Z))
    (aggregated : string) (delivered : list string) : Outcome :=
  match events with
  | [] => mkOutcome delivered false (Returned aggregated)
  | (event, now) :: events' =>
      let timedOut := (maxPollMs <? now - startTime)%Z in
      match deltaOf event with
      | Some d =>
          if timedOut
          then mkOutcome (delivered ++ [d]) true
                 (Threw "OpenAI response polling timed out")
          else streamLoop maxPollMs startTime events'
                 (aggregated +:+ d) (delivered ++ [d])
      | None =>
          if isError event
          then mkOutcome delivered false
                 (Threw (default "OpenAI streaming error" (errorMessage event)))
          else if timedOut
          then mkOutcome delivered true
                 (Threw "OpenAI response polling timed out")
          else streamLoop maxPollMs startTime events' aggregated delivered
      end
  end.

(** The deltas of a sequence of events, in order. *)
Definition deltasOf (events : list (StreamEvent * Z)) : list string :=
  omap (λ en, deltaOf en.1) events.

(** An iteration that does not throw: the event is not an error and the
    clock read after it is within [maxPollMs] of the start. *)
Definition passes (maxPollMs startTime : Z) (en : StreamEvent * Z) : Prop :=
  isError en.1 = false ∧ (en.2 - startTime ≤ maxPollMs)%Z.

(** [sendMedia] and [sendChat] from the creation of the stream on: the
    loop, then the final response when nothing was aggregated, then
    [trim]. *)
Definition receive (maxPollMs startTime : Z) (events : list (StreamEvent * Z))
    (finalResponse : FinalResponse) : Outcome :=
  let o := streamLoop maxPollMs startTime events "" [] in
  match result o with
  | Returned aggregated =>
      let aggregated :=
        if truthy aggregated then aggregated
        else extractTextFromResponse finalResponse in
      mkOutcome (delivered o) (aborted o) (Returned (trim aggregated))
  | Threw _ => o
  end.

End OpenAi.

(** [AiChatMessage] of [./chat-types], as [sendChat] reads it. *)
Module ChatTypes.

Record AiChatMessage : Set := mkMessage {
  role : string;
  content : option string
}.

End ChatTypes.

(** The [input] of a request, built by [sendMedia] and [sendChat]. *)
Module OpenAiInput.

Inductive Role : Set := system | user | assistant.

Inductive InputContent : Set :=
  | input_text (text : string)
  | input_image (image_url : string) (detail : string).

Record InputItem : Set := mkItem {
  role : Role;
  content : list InputContent
}.

(** The item pushed first when [this.systemPrompt] is set and not empty. *)
Definition systemInput (systemPrompt : option string) : list InputItem :=
  match systemPrompt with
  | Some prompt =>
      if truthy prompt then [mkItem system [input_text prompt]] else []
  | None => []
  end.

Definition roleOf (r : string) : Role :=
  if String.eqb r "assistant" then assistant
  else if String.eqb r "system" then system
  else user.

(** The body of the loop of [sendChat] over [messages]. *)
Definition chatItem (message : ChatTypes.AiChatMessage) : option InputItem :=
  match trim <$> ChatTypes.content message with
  | Some trimmed =>
      if truthy trimmed
      then Some (mkItem (roleOf (ChatTypes.role message)) [input_text trimmed])
      else None
  | None => None
  end.

Definition chatInput (systemPrompt : option string)
    (messages : list ChatTypes.AiChatMessage) : list InputItem :=
  systemInput systemPrompt ++ omap chatItem messages.

Definition mediaInput (systemPrompt : option string) (media mimeType : string)
    (prompt : option string) : list InputItem :=
  let promptPart :=
    match prompt with
    | Some p => if truthy p then [input_text p] else []
    | None => []
    end in
  systemInput systemPrompt
  ++ [mkItem user
        (promptPart
         ++ [input_image ("data:" +:+ mimeType +:+ ";base64," +:+ media) "auto"])].

End OpenAiInput.

(** ** The native camera hook (first part of
    [src/hooks/use-native-camera.ts]) and the camera flow of the upload
    area that calls it *)
Module NativeCamera.

(** [Photo] of [@capacitor/camera], as [convertToFile] reads it. *)
Record Photo : Set := mkPhoto {
  webPath : option string;
  path : option string
}.

(** The [File] built by [convertToFile]: its name and its MIME type. *)
Record File : Set := mkFile {
  name : string;
  type : string
}.

(** [PermissionStatus] of [@capacitor/camera]. *)
Record PermissionStatus : Set := mkStatus {
  camera : string;
  photos : string
}.

(** The calls made to the platform. *)
Inductive Call : Set :=
  | CheckPermissions
  | RequestPermissions
  | GetPhoto
  | Fetch (url : string).

(** What the platform answers: whether it is native, the two permission
    statuses, the photo taken, the MIME type of the blob fetched from a
    URL, and the clock.  The calls are taken to succeed: a rejected
    promise (a cancelled photo, a failed fetch) is outside the model. *)
Record Platform : Type := mkPlatform {
  isNativePlatform : bool;
  checkPermissions : PermissionStatus;
  requestPermissions : PermissionStatus;
  getPhoto : Photo;
  fetchBlobType : string → string;
  now : N
}.

(** A computation with the trace of the platform calls it makes. *)
Definition Traced (A : Type) : Type := list Call * A.

#[global] Instance traced_ret : MRet Traced := λ A x, ([], x).

#[global] Instance traced_bind : MBind Traced :=
  λ A B f m, let '(calls1, x) := m in
             let '(calls2, y) := f x in (calls1 ++ calls2, y).

(** [await] of a platform call. *)
Definition call {A : Type} (c : Call) (answer : A) : Traced A := ([c], answer).

(** [String(n)] for a whole number. *)
Definition numberToString (n : N) : string :=
  DecimalString.NilZero.string_of_uint (N.to_uint n).

Definition convertToFile (p : Platform) (photo : Photo) : Traced (option File) :=
  let url :=
    match webPath photo with
    | Some w => Some w
    | None => path photo
    end in
  match url with
  | Some u =>
      if truthy u then
        blobType ← call (Fetch u) (fetchBlobType p u);
        let extension := default "jpeg" (split "/" blobType !! 1) in
        let filename :=
          default ("photo-" +:+ numberToString (now p) +:+ "." +:+ extension)
                  (path photo ≫= λ path, last (split "/" path)) in
        mret (Some (mkFile filename blobType))
      else mret None
  | None => mret None
  end.

Definition granted (status : PermissionStatus) : bool :=
  String.eqb (camera status) "granted" || String.eqb (photos status) "granted".

Definition ensurePermissions (p : Platform) : Traced bool :=
  status ← call CheckPermissions (checkPermissions p);
  if granted status then mret true
  else
    requested ← call RequestPermissions (requestPermissions p);
    mret (granted requested).

(** [capture] of [useNativeCamera]. *)
Definition capture (p : Platform) : Traced (list File) :=
  if negb (isNativePlatform p) then mret []
  else
    allowed ← ensurePermissions p;
    if negb allowed then mret []
    else
      photo ← call GetPhoto (getPhoto p);
      file ← convertToFile p photo;
      mret (match file with Some f => [f] | None => [] end).

(** What the camera flow does to the page. *)
Inductive UiEffect : Set :=
  | AppendFiles (files : list File) (source : string)
  | ClickCameraInput.

(** [runCameraFlow] of [UploadArea]. *)
Definition runCameraFlow (isWorking : bool) (p : Platform)
  : Traced (list UiEffect) :=
  if isWorking then mret []
  else if isNativePlatform p then
    files ← capture p;
    if negb (length files =? 0)%nat then mret [AppendFiles files "camera"]
    else mret [ClickCameraInput]
  else mret [ClickCameraInput].

End NativeCamera.

Definition notSlash (a : ascii) : bool := negb (Ascii.eqb a "/").

(** A sample platform: native, the camera permission granted on request,
    a photo with a path, a JPEG blob. *)
Definition samplePhoto : NativeCamera.Photo :=
  NativeCamera.mkPhoto (Some "blob:capacitor/1")
    (Some "file:///data/cache/IMG_1.jpg").

Definition samplePlatform : NativeCamera.Platform :=
  NativeCamera.mkPlatform true
    (NativeCamera.mkStatus "prompt" "denied")
    (NativeCamera.mkStatus "granted" "denied")
    samplePhoto (λ _, "image/jpeg") 1730592000123.

(** The same platform taking a photo without a path. *)
Definition samplePlatformNoPath : NativeCamera.Platform :=
  NativeCamera.mkPlatform true
    (NativeCamera.mkStatus "prompt" "denied")
    (NativeCamera.mkStatus "granted" "denied")
    (NativeCamera.mkPhoto (Some "blob:capacitor/1") None)
    (λ _, "image/png") 1730592000123.

(** [l.join(sep)] *)
Fixpoint joinWith (sep : string) (l : list string) : string :=
  match l with
  | [] => ""
  | [s] => s
  | s :: l' => s +:+ sep +:+ joinWith sep l'
  end.

(** The texts of the headings of depth [d], trimmed, in document order:
    the keys (depth 3) and the step titles (depth 4) the loops store. *)
Definition headingKeys (d : nat) (tokens : list Token) : list string :=
  trim <$> omap (headingText d) tokens.

(** The end of a section or of a step: the end of the tokens, or a
    heading of depth [d]. *)
Definition startsWithHeading (d : nat) (tokens : list Token) : Prop :=
  match tokens with
  | [] => True
  | t :: _ => isHeading d t = true
  end.

(** ** Facts about strings *)

Section StringFacts.

Implicit Types (s t g : string) (c : ascii) (p q : ascii → bool).

Lemma app_nil_r s : s +:+ "" = s.
Proof. induction s as [|c s IH]; simpl; [done | by rewrite IH]. Qed.

Lemma app_assoc s t g : (s +:+ t) +:+ g = s +:+ (t +:+ g).
Proof. induction s as [|c s IH]; simpl; [done | by rewrite IH]. Qed.

Lemma length_app s t :
  String.length (s +:+ t) = String.length s + String.length t.
Proof. induction s as [|c s IH]; simpl; [done | by rewrite IH]. Qed.

Lemma isEmpty_true s : isEmpty s = true ↔ s = "".
Proof. by destruct s. Qed.

Lemma isEmpty_false s : isEmpty s = false ↔ s ≠ "".
Proof. by destruct s. Qed.

Lemma truthy_true s : truthy s = true ↔ s ≠ "".
Proof. by destruct s. Qed.

Lemma dropWhile_head p s : headOutside p (dropWhile p s).
Proof.
  induction s as [|c s IH]; simpl; [done |].
  destruct (p c) eqn:Hc; [done | by simpl].
Qed.

Lemma dropWhile_fix p s : headOutside p s → dropWhile p s = s.
Proof. destruct s as [|c s]; simpl; [done | by intros ->]. Qed.

Lemma dropWhileEnd_head p q s :
  headOutside q s → headOutside q (dropWhileEnd p s).
Proof.
  destruct s as [|c s]; simpl; [done |].
  intros Hc. by destruct (p c && isEmpty (dropWhileEnd p s)).
Qed.

Lemma dropWhileEnd_idem p s :
  dropWhileEnd p (dropWhileEnd p s) = dropWhileEnd p s.
Proof.
  induction s as [|c s IH]; simpl; [done |].
  destruct (p c && isEmpty (dropWhileEnd p s)) eqn:E; simpl; [done |].
  by rewrite IH, E.
Qed.

Lemma dropWhileEnd_length p s :
  (String.length (dropWhileEnd p s) ≤ String.length s)%nat.
Proof.
  induction s as [|c s IH]; simpl; [done |].
  destruct (p c && isEmpty (dropWhileEnd p s)); simpl; lia.
Qed.

Lemma dropWhile_length p s :
  (String.length (dropWhile p s) ≤ String.length s)%nat.
Proof.
  induction s as [|c s IH]; simpl; [done |].
  destruct (p c); simpl; lia.
Qed.

Lemma trim_idem s : trim (trim s) = trim s.
Proof.
  unfold trim, trimStart, trimEnd.
  rewrite (dropWhile_fix isWhiteSpace (dropWhileEnd _ _)).
  - apply dropWhileEnd_idem.
  - apply dropWhileEnd_head, dropWhile_head.
Qed.

Lemma trim_length s : (String.length (trim s) ≤ String.length s)%nat.
Proof.
  unfold trim, trimStart, trimEnd.
  etrans; [apply dropWhileEnd_length | apply dropWhile_length].
Qed.

Lemma trimmed_trim s : trimmed (trim s).
Proof. apply trim_idem. Qed.

Lemma trimmed_empty : trimmed "".
Proof. done. Qed.

(** [trim] gives the empty text exactly on texts of whitespace. *)
Lemma trim_empty_iff s : trim s = "" ↔ allChars isWhiteSpace s = true.
Proof.
  unfold trim, trimStart, trimEnd.
  induction s as [|c s IH]; simpl; [done |].
  destruct (isWhiteSpace c) eqn:Hc; simpl; [done |].
  rewrite Hc. simpl. split; discriminate.
Qed.

Lemma dropWhile_app p s c t :
  p c = false →
  dropWhile p (s +:+ String c t) = dropWhile p s +:+ String c t.
Proof.
  intros Hc. induction s as [|a s IH]; simpl; [by rewrite Hc |].
  by destruct (p a).
Qed.

Lemma dropWhileEnd_snoc p s c :
  p c = true → dropWhileEnd p (s +:+ String c "") = dropWhileEnd p s.
Proof.
  intros Hc. induction s as [|a s IH]; simpl; [by rewrite Hc |].
  by rewrite IH.
Qed.

Lemma trim_snoc s c : isWhiteSpace c = true → trim (s +:+ String c "") = trim s.
Proof.
  intros Hc. unfold trim, trimStart, trimEnd.
  induction s as [|a s IH]; simpl; [by rewrite Hc |].
  destruct (isWhiteSpace a) eqn:Ha; [done |].
  change (String a (s +:+ String c "")) with (String a s +:+ String c "").
  by rewrite dropWhileEnd_snoc.
Qed.

Lemma trim_trimStart s : trim (dropWhile isWhiteSpace s) = trim s.
Proof.
  unfold trim, trimStart.
  by rewrite (dropWhile_fix _ (dropWhile _ _)) by apply dropWhile_head.
Qed.

End StringFacts.

(** ** Facts about the lexer model *)

Section MarkedFacts.

Lemma concat_lines s : concat (lines s) = s.
Proof.
  induction s as [|c s IH]; simpl; [done |].
  destruct (Ascii.eqb c LF); simpl; [by rewrite IH |].
  destruct (lines s) as [|l ls]; simpl in *; by rewrite <- IH.
Qed.

Lemma takeWhile_dropWhile p s : takeWhile p s +:+ dropWhile p s = s.
Proof.
  induction s as [|c s IH]; simpl; [done |].
  destruct (p c); simpl; [by rewrite IH | done].
Qed.

Lemma dropWhileEnd_takeWhileEnd p s :
  dropWhileEnd p s +:+ takeWhileEnd p s = s.
Proof.
  induction s as [|c s IH]; simpl; [done |].
  destruct (p c && isEmpty (dropWhileEnd p s)); simpl; [done | by rewrite IH].
Qed.

Lemma concat_blockTokens ls : concat (raw <$> blockTokens ls) = concat ls.
Proof.
  induction ls as [|l ls IH]; simpl; [done |].
  rewrite <- IH.
  destruct (classify l);
    destruct (blockTokens ls) as [|[d' text' rw|[] rw] ts]; simpl;
    rewrite ?app_assoc; try done.
  - pose proof (takeWhile_dropWhile isLF rw) as H.
    set (t := takeWhile isLF rw) in *. set (d := dropWhile isLF rw) in *.
    clearbody t d. subst rw. clear IH.
    destruct d; simpl; by rewrite ?app_nil_r, ?app_assoc.
  - by rewrite <- (app_assoc (dropWhileEnd _ _)), dropWhileEnd_takeWhileEnd.
Qed.

(** The raw spans of the tokens cover the newline-normalised input, in
    order and without loss. *)
Lemma lexer_lossless src : concat (raw <$> Marked.lexer src) = normalize src.
Proof. unfold Marked.lexer. by rewrite concat_blockTokens, concat_lines. Qed.

End MarkedFacts.

(** ** Facts about the fence expression *)

Section FenceFacts.

Implicit Types (s t g m : string) (c : ascii) (p : ascii → bool).

Lemma eqb_length s t : String.eqb s t = true → String.length s = String.length t.
Proof. by intros ->%String.eqb_eq. Qed.

Lemma stripSuffix_cons t c s :
  stripSuffix t (String c s) =
  if String.eqb (String c s) t then Some "" else String c <$> stripSuffix t s.
Proof. done. Qed.

Lemma stripSuffix_app t g : stripSuffix t (g +:+ t) = Some g.
Proof.
  induction g as [|c g IH].
  - destruct t as [|a t]; simpl; [done |].
    by rewrite Ascii.eqb_refl, String.eqb_refl.
  - change (String c g +:+ t) with (String c (g +:+ t)).
    rewrite stripSuffix_cons, IH.
    destruct (String.eqb (String c (g +:+ t)) t) eqn:E; [| done].
    apply eqb_length in E. simpl in E. rewrite length_app in E. lia.
Qed.

Lemma stripSuffix_Some t s g : stripSuffix t s = Some g → s = g +:+ t.
Proof.
  revert g. induction s as [|c s IH]; intros g.
  - destruct t; simpl; [by intros [= <-] | done].
  - rewrite stripSuffix_cons.
    destruct (String.eqb (String c s) t) eqn:E.
    + intros [= <-]. by apply String.eqb_eq in E.
    + destruct (stripSuffix t s) as [g'|] eqn:Hg; simpl; [| done].
      intros [= <-]. simpl. f_equal. by apply IH.
Qed.

Lemma prefix_stripPrefix t s :
  String.prefix t s = true ↔ is_Some (stripPrefix t s).
Proof.
  revert s. induction t as [|a t IH]; intros s.
  - destruct s; simpl; split; eauto.
  - destruct s as [|b s]; simpl.
    + split; [done | by intros [? [=]]].
    + destruct (ascii_dec a b) as [->|Hne].
      * by rewrite Ascii.eqb_refl.
      * apply Ascii.eqb_neq in Hne. rewrite Hne.
        split; [done | by intros [? [=]]].
Qed.

Lemma stripPrefix_app t s : stripPrefix t (t +:+ s) = Some s.
Proof.
  induction t as [|a t IH]; simpl; [by destruct s |].
  by rewrite Ascii.eqb_refl.
Qed.

Lemma stripPrefix_Some t s g : stripPrefix t s = Some g → s = t +:+ g.
Proof.
  revert s. induction t as [|a t IH]; intros [|b s]; simpl;
    try by intros [= <-].
  destruct (Ascii.eqb a b) eqn:E; [| done].
  apply Ascii.eqb_eq in E as ->. intros ->%IH. done.
Qed.

(** What [dropWhile] removes is a prefix. *)
Lemma dropWhile_suffix p s : ∃ pre, s = pre +:+ dropWhile p s.
Proof.
  induction s as [|c s [pre IH]]; simpl; [by exists "" |].
  destruct (p c); [| by exists ""].
  exists (String c pre). simpl. by rewrite <- IH.
Qed.

Lemma LF_isWhiteSpace c : Ascii.eqb c LF = true → isWhiteSpace c = true.
Proof. by intros ->%Ascii.eqb_eq. Qed.

Lemma trim_cons_ws c s : isWhiteSpace c = true → trim (String c s) = trim s.
Proof. intros Hc. unfold trim, trimStart. simpl. by rewrite Hc. Qed.

(** A match of the fence expression: the text starts and ends with three
    backticks that do not overlap. *)
Lemma matchFence_Some s body :
  matchFence s = Some body → ∃ m, s = "```" +:+ (m +:+ "```").
Proof.
  unfold matchFence.
  destruct (stripPrefix "```" s) as [r|] eqn:Hr; [| done].
  apply stripPrefix_Some in Hr as ->.
  set (afterTag := match r with "" => r | String c _ => _ end).
  assert (∃ pre, r = pre +:+ afterTag) as [pre1 H1].
  { subst afterTag. destruct r as [|c r']; [by exists "" |].
    destruct (isWordChar c); [| by exists ""].
    destruct (dropWhile_suffix isWordChar (String c r')) as [p1 Hp1].
    destruct (dropWhile_suffix isWhiteSpace (dropWhile isWordChar (String c r')))
      as [p2 Hp2].
    exists (p1 +:+ p2). rewrite app_assoc, <- Hp2. exact Hp1. }
  set (afterNewline := match afterTag with "" => afterTag | String c _ => _ end).
  assert (∃ pre, afterTag = pre +:+ afterNewline) as [pre2 H2].
  { subst afterNewline. destruct afterTag as [|c r']; [by exists "" |].
    destruct (Ascii.eqb c "010"); [| by exists ""].
    by exists (String c ""). }
  intros Hs%stripSuffix_Some.
  exists (pre1 +:+ (pre2 +:+ body)).
  rewrite H1, H2, Hs. by rewrite !app_assoc.
Qed.

Lemma wrapperShaped_intro m : wrapperShaped ("```" +:+ (m +:+ "```")) = true.
Proof.
  unfold wrapperShaped, startsWith, endsWith.
  rewrite !andb_true_iff. split_and!.
  - apply prefix_stripPrefix. by rewrite stripPrefix_app.
  - by rewrite <- app_assoc, stripSuffix_app.
  - apply Nat.leb_le. rewrite !length_app. simpl. lia.
Qed.

(** The result of the fence stripper on a text of the accepted shape:
    the two markers go, then the language tag, then the surrounding
    whitespace. *)
Lemma trimMarkdownFence_shaped content m :
  trim content = "```" +:+ (m +:+ "```") →
  trimMarkdownFence content = trim (dropWhile isWordChar m).
Proof.
  intros Hs. unfold trimMarkdownFence, matchFence. rewrite Hs.
  rewrite stripPrefix_app.
  destruct m as [|c m].
  { done. }
  change (String c m +:+ "```") with (String c (m +:+ "```")).
  cbv beta iota.
  destruct (isWordChar c) eqn:Hw.
  - change (String c (m +:+ "```")) with (String c m +:+ String "`" "``").
    rewrite dropWhile_app by done.
    rewrite dropWhile_app by done.
    set (Y := dropWhile isWhiteSpace (dropWhile isWordChar (String c m))).
    assert (headOutside isWhiteSpace Y) as HY by apply dropWhile_head.
    assert (trim Y = trim (dropWhile isWordChar (String c m))) as HtY
      by apply trim_trimStart.
    rewrite <- HtY. clearbody Y. clear HtY.
    destruct Y as [|a y]; simpl in HY.
    + done.
    + change (String a y +:+ String "`" "``") with (String a (y +:+ "```")).
      destruct (Ascii.eqb a "010") eqn:Ea.
      { apply LF_isWhiteSpace in Ea. congruence. }
      change (String a (y +:+ "```")) with (String a y +:+ "```").
      by rewrite ?Ea, stripSuffix_app.
  - simpl dropWhile. rewrite Hw.
    destruct (Ascii.eqb c "010") eqn:Ec.
    + rewrite stripSuffix_app. apply LF_isWhiteSpace in Ec.
      by rewrite trim_cons_ws.
    + change (String c (m +:+ "```")) with (String c m +:+ "```").
      by rewrite stripSuffix_app.
Qed.

Lemma trimMarkdownFence_unshaped content :
  wrapperShaped (trim content) = false →
  trimMarkdownFence content = trim content.
Proof.
  intros Hs. unfold trimMarkdownFence.
  destruct (matchFence (trim content)) as [body|] eqn:Hm; [| done].
  apply matchFence_Some in Hm as [m Hm].
  by rewrite Hm, wrapperShaped_intro in Hs.
Qed.

End FenceFacts.

(** ** Facts about [split] *)

Section SplitFacts.

Implicit Types (s t a b sep : string) (c : ascii).

Lemma split_go_skip sep t s :
  split_go sep (String.length t) (t +:+ s) = split_go sep 0 s.
Proof. induction t as [|c t IH]; simpl; [by destruct s | done]. Qed.

Lemma prefix_app sep s : String.prefix sep (sep +:+ s) = true.
Proof. apply prefix_stripPrefix. by rewrite stripPrefix_app. Qed.

(** Splitting a text that starts with the separator. *)
Lemma split_at_sep c sep s :
  split (String c sep) (String c sep +:+ s) = "" :: split (String c sep) s.
Proof.
  unfold split.
  change (String c sep +:+ s) with (String c (sep +:+ s)).
  cbn [split_go].
  change (String c (sep +:+ s)) with (String c sep +:+ s).
  rewrite prefix_app. f_equal.
  replace (String.length (String c sep) - 1) with (String.length sep)
    by (simpl; lia).
  apply split_go_skip.
Qed.

(** A text without the separator is one chunk. *)
Lemma split_no_sep sep s : indexOf sep s = None → split sep s = [s].
Proof.
  unfold indexOf, split. induction s as [|c s IH]; [done |].
  cbn [String.index split_go].
  destruct (String.prefix sep (String c s)); [done |].
  destruct (String.index 0 sep s); [done |].
  intros _. by rewrite IH.
Qed.

(** When the first separator of [a +:+ rest] starts right after [a],
    the first chunk is [a]. *)
Lemma split_first sep a rest :
  indexOf sep (a +:+ rest) = Some (String.length a) →
  ∃ chunks, split sep rest = "" :: chunks ∧ split sep (a +:+ rest) = a :: chunks.
Proof.
  unfold indexOf, split. induction a as [|c a IH].
  - simpl. destruct rest as [|c rest]; cbn [String.index split_go].
    + destruct sep; [eauto | done].
    + destruct (String.prefix sep (String c rest)); [eauto |].
      by destruct (String.index 0 sep rest).
  - change (String c a +:+ rest) with (String c (a +:+ rest)).
    cbn [String.index split_go String.length].
    destruct (String.prefix sep (String c (a +:+ rest))); [done |].
    destruct (String.index 0 sep (a +:+ rest)) as [n|] eqn:Hn; [| done].
    intros [= ->]. destruct IH as (chunks & H1 & H2); [done |].
    exists chunks. by rewrite H2.
Qed.

Lemma split_join a b :
  indexOf SEPARATOR (a +:+ SEPARATOR +:+ b) = Some (String.length a) →
  indexOf SEPARATOR b = None →
  split SEPARATOR (a +:+ SEPARATOR +:+ b) = [a; b].
Proof.
  intros Ha Hb. apply split_first in Ha as (chunks & H1 & ->).
  unfold SEPARATOR in H1 at 1 2. rewrite split_at_sep in H1.
  injection H1 as <-. fold SEPARATOR. by rewrite split_no_sep.
Qed.

Lemma indexOf_whitespace s :
  allChars isWhiteSpace s = true → indexOf SEPARATOR s = None.
Proof.
  unfold indexOf. induction s as [|c s IH]; [done |].
  simpl allChars. intros [Hc Hs]%andb_true_iff.
  cbn [String.index]. rewrite IH by done.
  unfold SEPARATOR at 1. cbn [String.prefix].
  destruct (ascii_dec "-" c) as [<-|]; [done | done].
Qed.

(** A text of whitespace is one chunk. *)
Lemma split_whitespace s : trim s = "" → split SEPARATOR s = [s].
Proof.
  intros H%trim_empty_iff. by apply split_no_sep, indexOf_whitespace.
Qed.

(** A text that ends with the stem of the separator shifts the cut: the
    first match then starts inside the text. *)
Example split_after_stem :
  split SEPARATOR ("x---PROBLEM_SEPARATOR" +:+ SEPARATOR +:+ "y")
  = ["x"; "PROBLEM_SEPARATOR---y"].
Proof. reflexivity. Qed.

End SplitFacts.

(** ** Facts about the parser *)

Section ParserFacts.

Variable lexer : string → list Token.

Implicit Types (k : string) (t : Token) (tokens : list Token)
  (r : ProblemSolution) (s : ExplanationStep).

Lemma headingText_None d t : isHeading d t = false → headingText d t = None.
Proof. destruct t as [d' text rw|kind rw]; simpl; [| done]. by intros ->. Qed.

(** *** The step splitter *)

Lemma stepStep_without_heading tokens st :
  noHeading 4 tokens → fst st = [] → snd st = None →
  foldl stepStep st tokens = ([], None).
Proof.
  intros Hno. revert st.
  induction Hno as [|t tokens Ht _ IH]; intros [steps cur]; simpl.
  - by intros -> ->.
  - intros -> ->. apply IH; unfold stepStep;
      by rewrite (headingText_None _ _ Ht).
Qed.

Lemma parseSteps_empty : parseSteps lexer "" = [].
Proof. done. Qed.

Lemma parseSteps_without_heading body :
  noHeading 4 (lexer body) →
  parseSteps lexer body =
    if truthy (trim body) then [mkStep "Detailed Explanation" (trim body)]
    else [].
Proof.
  intros Hno. unfold parseSteps.
  destruct (isEmpty body) eqn:Hb.
  { by apply isEmpty_true in Hb as ->. }
  rewrite (stepStep_without_heading _ _ Hno) by done. simpl.
  by destruct (truthy (trim body)).
Qed.

(** The loop of [parseSteps] only ever stores trimmed titles. *)
Lemma stepStep_titles tokens steps cur :
  Forall (λ s, trimmed (title s)) steps →
  (∀ s, cur = Some s → trimmed (title s)) →
  Forall (λ s, trimmed (title s)) (fst (foldl stepStep (steps, cur) tokens))
  ∧ (∀ s, snd (foldl stepStep (steps, cur) tokens) = Some s → trimmed (title s)).
Proof.
  revert steps cur. induction tokens as [|t tokens IH]; intros steps cur Hs Hc.
  { done. }
  simpl. destruct (headingText 4 t) as [text|].
  - apply IH.
    + destruct cur as [s|]; [| done].
      apply Forall_app. split; [done |]. apply Forall_singleton. by apply Hc.
    + intros s [= <-]. apply trimmed_trim.
  - destruct cur as [s|]; apply IH; try done.
    intros s' [= <-]. simpl. by apply Hc.
Qed.

Lemma parseSteps_trimmed body : Forall trimmedStep (parseSteps lexer body).
Proof.
  unfold parseSteps. destruct (isEmpty body); [done |].
  destruct (stepStep_titles (lexer body) [] None) as [H1 H2]; [done.. |].
  destruct (foldl stepStep ([], None) (lexer body)) as [steps cur].
  simpl in H1, H2.
  set (final := match cur with Some s => steps ++ [s] | None => steps end).
  assert (Forall (λ s, trimmed (title s)) final) as Hfinal.
  { subst final. destruct cur as [s|]; [| done].
    apply Forall_app. split; [done |]. apply Forall_singleton. by apply H2. }
  destruct (_ && _).
  - apply Forall_singleton. split; [done | apply trimmed_trim].
  - apply Forall_fmap. eapply Forall_impl; [exact Hfinal |].
    intros s Hs. split; [done | apply trimmed_trim].
Qed.

(** *** The section grouper *)

Lemma getSectionsByH3_trimmed tokens k :
  trimmed (orEmpty (getSectionsByH3 tokens !! k)).
Proof.
  unfold getSectionsByH3.
  destruct (foldl sectionStep (∅, None) tokens) as [sections cur].
  rewrite lookup_fmap. destruct (sections !! k); simpl; [apply trimmed_trim | done].
Qed.

(** *** The assemblers *)

Lemma parseChunk_Some chunk r :
  parseChunk lexer chunk = Some r →
  trim chunk ≠ ""
  ∧ problem r = orEmpty (sectionsOf lexer chunk !! "PROBLEM_TEXT")
  ∧ explanation r = orEmpty (sectionsOf lexer chunk !! "EXPLANATION")
  ∧ answer r = orEmpty (sectionsOf lexer chunk !! "ANSWER")
  ∧ steps r = parseSteps lexer (explanation r)
  ∧ (problem r ≠ "" ∨ explanation r ≠ "" ∨ answer r ≠ "").
Proof.
  unfold parseChunk.
  destruct (isEmpty (trim chunk)) eqn:He; [done |].
  apply isEmpty_false in He.
  destruct (_ || _ || _) eqn:Hor; [| done].
  intros [= <-]. simpl. split_and!; try done.
  apply orb_true_iff in Hor as [[H|H]%orb_true_iff|H];
    apply truthy_true in H; auto.
Qed.

Lemma parseChunk_trimmed chunk r :
  parseChunk lexer chunk = Some r → fullyTrimmed r.
Proof.
  intros (_ & Hp & He & Ha & Hs & _)%parseChunk_Some.
  unfold fullyTrimmed. rewrite Hp, Ha, Hs. rewrite He at 1.
  split_and!; try apply getSectionsByH3_trimmed. apply parseSteps_trimmed.
Qed.

(** Every record of the result comes from a chunk, or is the fallback. *)
Lemma parseSolveResponse_elem response r :
  r ∈ problems (parseSolveResponse lexer response) →
  (∃ chunk, chunk ∈ split SEPARATOR response ∧ parseChunk lexer chunk = Some r)
  ∨ r = fallbackProblem response.
Proof.
  unfold parseSolveResponse.
  destruct (_ && _); simpl.
  - intros ->%list_elem_of_singleton. by right.
  - intros (chunk & Hin & Hr)%list_elem_of_omap. left. eauto.
Qed.

Lemma parseSolveResponse_single response r :
  split SEPARATOR response = [response] →
  parseChunk lexer response = Some r →
  parseSolveResponse lexer response = mkSolve [r].
Proof.
  intros Hs Hr. unfold parseSolveResponse. rewrite Hs. simpl. by rewrite Hr.
Qed.

End ParserFacts.

(** ** Facts about the section grouper *)

Section SectionFacts.

Implicit Types (k v text rw : string) (t : Token) (tokens : list Token)
  (m old : gmap string string) (st : gmap string string * option string).

Lemma setProp_union k v m old : setProp k v (m ∪ old) = setProp k v m ∪ old.
Proof. unfold setProp. case_decide; [done | apply insert_union_l]. Qed.

Lemma appendProp_union k rw m old :
  (k ≠ "__proto__" → is_Some (m !! k)) →
  appendProp k rw (m ∪ old) = appendProp k rw m ∪ old.
Proof.
  intros Hk. unfold appendProp, setProp. case_decide; [done |].
  destruct Hk as [v Hv]; [done |].
  by rewrite (lookup_union_Some_l _ _ _ _ Hv), Hv, insert_union_l.
Qed.

Lemma setProp_empty_open k v :
  keyOpen (setProp k v ∅, Some k).
Proof.
  intros k' [= <-] _ Hk. unfold setProp. simpl.
  rewrite decide_False by done. rewrite lookup_insert_eq. eauto.
Qed.

Lemma sectionStep_union st old t :
  keyOpen st →
  sectionStep (st.1 ∪ old, st.2) t
  = ((sectionStep st t).1 ∪ old, (sectionStep st t).2).
Proof.
  destruct st as [m cur]. intros Hopen. unfold sectionStep; simpl.
  destruct (headingText 3 t) as [text|].
  - destruct (truthy (trim text)); simpl; [| done].
    by rewrite setProp_union.
  - destruct cur as [k|]; [| done].
    destruct (truthy k) eqn:Hk; simpl; [| done].
    rewrite appendProp_union; [done |]. intros Hne. by apply Hopen.
Qed.

Lemma sectionStep_keyOpen st t : keyOpen st → keyOpen (sectionStep st t).
Proof.
  destruct st as [m cur]. intros Hopen. unfold sectionStep.
  destruct (headingText 3 t) as [text|].
  - destruct (truthy (trim text)) eqn:Hk.
    + intros k [= <-] _ Hne. unfold setProp. simpl.
      rewrite decide_False by done. rewrite lookup_insert_eq. eauto.
    + intros k [= <-] Hk'. congruence.
  - destruct cur as [k|]; [| done].
    destruct (truthy k) eqn:Hk; [| done].
    intros k' [= <-] _ Hne. unfold appendProp, setProp. simpl.
    rewrite decide_False by done. rewrite lookup_insert_eq. eauto.
Qed.

(** Bodies present before the loop starts survive exactly under the keys
    the loop does not write. *)
Lemma foldl_sectionStep_union tokens st old :
  keyOpen st →
  foldl sectionStep (st.1 ∪ old, st.2) tokens
  = ((foldl sectionStep st tokens).1 ∪ old, (foldl sectionStep st tokens).2).
Proof.
  revert st. induction tokens as [|t tokens IH]; intros st Hopen; cbn [foldl].
  { done. }
  rewrite sectionStep_union by done.
  by rewrite IH by by apply sectionStep_keyOpen.
Qed.

(** Without a further depth-3 heading every token goes to the current
    section. *)
Lemma foldl_sectionStep_body tokens m k v :
  noHeading 3 tokens → truthy k = true → k ≠ "__proto__" →
  m !! k = Some v →
  foldl sectionStep (m, Some k) tokens
  = (<[k := v +:+ concat (raw <$> tokens)]> m, Some k).
Proof.
  intros Hno Hk Hne. revert m v.
  induction Hno as [|t tokens Ht _ IH]; intros m v Hv; cbn [foldl fmap list_fmap concat].
  { by rewrite app_nil_r, insert_id. }
  unfold sectionStep at 2. rewrite (headingText_None _ _ Ht), Hk.
  unfold appendProp, setProp. rewrite decide_False by done.
  rewrite Hv. simpl.
  rewrite (IH _ (v +:+ raw t)) by apply lookup_insert_eq.
  by rewrite insert_insert_eq, app_assoc.
Qed.

Lemma sectionStep_heading m cur text rw :
  truthy (trim text) = true →
  sectionStep (m, cur) (Heading 3 text rw)
  = (setProp (trim text) "" m, Some (trim text)).
Proof. intros Hk. unfold sectionStep. simpl. by rewrite Hk. Qed.

(** A depth-3 heading starts its section afresh: from there on the
    grouping is that of the rest of the document alone, and the earlier
    part only contributes the keys the rest does not open. *)
Lemma getSectionsByH3_restart tokens1 text rw tokens2 :
  trim text ≠ "" →
  getSectionsByH3 (tokens1 ++ Heading 3 text rw :: tokens2)
  = getSectionsByH3 (Heading 3 text rw :: tokens2) ∪ getSectionsByH3 tokens1.
Proof.
  intros Hk%truthy_true. unfold getSectionsByH3.
  rewrite foldl_app. cbn [foldl].
  destruct (foldl sectionStep (∅, None) tokens1) as [m1 c1].
  rewrite !sectionStep_heading by done.
  pose proof (foldl_sectionStep_union tokens2
                (setProp (trim text) "" ∅, Some (trim text)) m1
                (setProp_empty_open _ _)) as H.
  simpl in H. rewrite <- setProp_union, (left_id_L ∅ (∪)) in H.
  rewrite H.
  destruct (foldl sectionStep (setProp (trim text) "" ∅, Some (trim text)) tokens2)
    as [m2 c2].
  simpl. apply map_fmap_union.
Qed.

Lemma getSectionsByH3_last tokens1 text rw tokens2 :
  trim text ≠ "" → trim text ≠ "__proto__" → noHeading 3 tokens2 →
  getSectionsByH3 (tokens1 ++ Heading 3 text rw :: tokens2) !! trim text
  = Some (trim (concat (raw <$> tokens2))).
Proof.
  intros Hk Hne Hno. rewrite getSectionsByH3_restart by done.
  apply lookup_union_Some_l.
  apply truthy_true in Hk.
  unfold getSectionsByH3. cbn [foldl]. rewrite sectionStep_heading by done.
  unfold setProp. rewrite decide_False by done.
  rewrite (foldl_sectionStep_body _ _ _ "") by (done || apply lookup_insert_eq).
  by rewrite lookup_fmap, lookup_insert_eq.
Qed.

(** Two tokens in a row that are not depth-3 headings act on the sections
    as one token holding both raw texts. *)
Lemma sectionStep_merge st t1 t2 kind :
  headingText 3 t1 = None → headingText 3 t2 = None →
  sectionStep (sectionStep st t1) t2
  = sectionStep st (Block kind (raw t1 +:+ raw t2)).
Proof.
  destruct st as [m cur]. intros H1 H2. unfold sectionStep.
  rewrite H1. simpl.
  destruct cur as [k|]; [| by rewrite H2].
  destruct (truthy k) eqn:Hk; rewrite H2, Hk; [| done].
  f_equal. unfold appendProp, setProp.
  case_decide; [done |].
  rewrite lookup_insert_eq, insert_insert_eq. simpl. by rewrite app_assoc.
Qed.

(** Likewise for the steps and tokens that are not depth-4 headings. *)
Lemma stepStep_merge (st : list ExplanationStep * option ExplanationStep)
    t1 t2 kind :
  headingText 4 t1 = None → headingText 4 t2 = None →
  stepStep (stepStep st t1) t2
  = stepStep st (Block kind (raw t1 +:+ raw t2)).
Proof.
  destruct st as [steps cur]. intros H1 H2. unfold stepStep.
  rewrite H1. simpl.
  destruct cur as [s|]; rewrite H2; [| done].
  simpl. by rewrite app_assoc.
Qed.

End SectionFacts.

(** ** Facts about a fenced text *)

Section WrapFacts.

Implicit Types (s t sep tag body rest : string) (a b c : ascii)
  (p : ascii → bool).

Lemma dropWhileEnd_keep p s c :
  p c = false → dropWhileEnd p (s +:+ String c "") = s +:+ String c "".
Proof.
  intros Hc. induction s as [|a s IH]; simpl; [by rewrite Hc |].
  rewrite IH. destruct s; simpl; by rewrite andb_false_r.
Qed.

(** A text with no whitespace at either end is its own trimmed form. *)
Lemma trim_fixed s g c :
  headOutside isWhiteSpace s → s = g +:+ String c "" →
  isWhiteSpace c = false → trim s = s.
Proof.
  intros Hh -> Hc. unfold trim, trimStart, trimEnd.
  rewrite dropWhile_fix by done. by apply dropWhileEnd_keep.
Qed.

Lemma dropWhile_all p s : allChars p s = true → dropWhile p s = "".
Proof.
  induction s as [|c s IH]; simpl; [done |].
  intros [-> Hs]%andb_true_iff. auto.
Qed.

Lemma wrapFence_shape tag body :
  wrapFence tag body
  = "```" +:+ ((tag +:+ String LF (body +:+ String LF "")) +:+ "```").
Proof.
  unfold wrapFence. rewrite !app_assoc. simpl. by rewrite app_assoc.
Qed.

Lemma trim_wrapFence tag body : trim (wrapFence tag body) = wrapFence tag body.
Proof.
  apply (trim_fixed _ ("```" +:+ tag +:+ String LF (body +:+ String LF "``"))
                    "`"); [done | | done].
  unfold wrapFence. rewrite !app_assoc. simpl. by rewrite !app_assoc.
Qed.

(** The fence stripper undoes [wrapFence], up to trimming. *)
Lemma trimMarkdownFence_wrapFence tag body :
  allChars isWordChar tag = true →
  trimMarkdownFence (wrapFence tag body) = trim body.
Proof.
  intros Htag.
  rewrite (trimMarkdownFence_shaped _ (tag +:+ String LF (body +:+ String LF ""))).
  - rewrite dropWhile_app by done. rewrite dropWhile_all by done. simpl.
    rewrite trim_cons_ws by done. by apply trim_snoc.
  - rewrite trim_wrapFence. apply wrapFence_shape.
Qed.

Lemma prefix_mono sep s t :
  String.prefix sep s = true → String.prefix sep (s +:+ t) = true.
Proof.
  revert s. induction sep as [|a sep IH]; intros [|b s]; simpl; try done.
  - by destruct t.
  - destruct (ascii_dec a b); [apply IH | done].
Qed.

(** A character that does not occur in [sep] stops every match of
    [sep]. *)
Lemma prefix_stop sep s c t :
  allChars (λ a, negb (Ascii.eqb a c)) sep = true →
  sep ≠ "" →
  String.prefix sep (s +:+ String c t) = String.prefix sep s.
Proof.
  revert s. induction sep as [|a sep IH]; intros s Hc Hne; [done |].
  simpl in Hc. apply andb_true_iff in Hc as [Ha Hc].
  apply negb_true_iff, Ascii.eqb_neq in Ha.
  destruct s as [|b s]; simpl.
  - by destruct (ascii_dec a c).
  - destruct (ascii_dec a b); [| done].
    destruct sep as [|a' sep]; [by destruct s | by apply IH].
Qed.

Lemma indexOf_cons sep c s :
  String.prefix sep (String c s) = false →
  indexOf sep s = None → indexOf sep (String c s) = None.
Proof. unfold indexOf. cbn [String.index]. by intros -> ->. Qed.

Lemma indexOf_cons_inv sep c s :
  indexOf sep (String c s) = None →
  String.prefix sep (String c s) = false ∧ indexOf sep s = None.
Proof.
  unfold indexOf. cbn [String.index].
  destruct (String.prefix sep (String c s)); [done |].
  by destruct (String.index 0 sep s).
Qed.

Lemma indexOf_app_stop sep s c t :
  allChars (λ a, negb (Ascii.eqb a c)) sep = true → sep ≠ "" →
  indexOf sep s = None → indexOf sep (String c t) = None →
  indexOf sep (s +:+ String c t) = None.
Proof.
  intros Hc Hne Hs Ht. induction s as [|b s IH]; [done |].
  apply indexOf_cons_inv in Hs as [Hp Hs].
  change (String b s +:+ String c t) with (String b (s +:+ String c t)).
  apply indexOf_cons; [| by apply IH].
  change (String b (s +:+ String c t)) with (String b s +:+ String c t).
  by rewrite prefix_stop.
Qed.

(** Characters other than the dash cannot start the separator. *)
Lemma indexOf_skip s t :
  allChars (λ a, negb (Ascii.eqb a "-")) s = true →
  indexOf SEPARATOR t = None → indexOf SEPARATOR (s +:+ t) = None.
Proof.
  intros Hs Ht. induction s as [|c s IH]; [done |].
  simpl in Hs. apply andb_true_iff in Hs as [Hc Hs].
  apply negb_true_iff, Ascii.eqb_neq in Hc.
  change (String c s +:+ t) with (String c (s +:+ t)).
  apply indexOf_cons; [| by apply IH].
  unfold SEPARATOR. cbn [String.prefix].
  by destruct (ascii_dec "-" c) as [<-|].
Qed.

Lemma isWordChar_not_dash tag :
  allChars isWordChar tag = true →
  allChars (λ a, negb (Ascii.eqb a "-")) tag = true.
Proof.
  induction tag as [|c tag IH]; simpl; [done |].
  intros [Hc Htag]%andb_true_iff. rewrite IH by done.
  destruct (Ascii.eqb c "-") eqn:E; [| done].
  by apply Ascii.eqb_eq in E as ->.
Qed.

Lemma allChars_app p s t :
  allChars p (s +:+ t) = allChars p s && allChars p t.
Proof.
  induction s as [|c s IH]; simpl; [done |]. by rewrite IH, andb_assoc.
Qed.

(** Wrapping adds no separator. *)
Lemma indexOf_wrapFence tag body :
  allChars isWordChar tag = true →
  indexOf SEPARATOR body = None →
  indexOf SEPARATOR (wrapFence tag body) = None.
Proof.
  intros Htag Hbody.
  replace (wrapFence tag body)
    with (("```" +:+ tag +:+ String LF "") +:+ (body +:+ String LF "```"))
    by (unfold wrapFence; by rewrite !app_assoc).
  apply indexOf_skip.
  - rewrite !allChars_app. by rewrite (isWordChar_not_dash tag).
  - by apply indexOf_app_stop.
Qed.

Lemma indexOf_before sep s rest :
  sep ≠ "" →
  indexOf sep (s +:+ rest) = Some (String.length s) → indexOf sep s = None.
Proof.
  intros Hne. induction s as [|c s IH]; [by destruct sep |].
  change (String c s +:+ rest) with (String c (s +:+ rest)).
  unfold indexOf in *. cbn [String.index String.length].
  destruct (String.prefix sep (String c (s +:+ rest))) eqn:Hp; [done |].
  destruct (String.index 0 sep (s +:+ rest)) as [n|] eqn:Hn; [| done].
  intros [= ->]. rewrite IH by done.
  destruct (String.prefix sep (String c s)) eqn:Hp'; [| done].
  apply (prefix_mono _ _ rest) in Hp'.
  change (String c s +:+ rest) with (String c (s +:+ rest)) in Hp'.
  congruence.
Qed.

Lemma prefix_of_app sep rest s :
  String.prefix (sep +:+ rest) s = true → String.prefix sep s = true.
Proof.
  revert s. induction sep as [|a sep IH]; intros [|b s]; simpl; try done.
  destruct (ascii_dec a b); [apply IH | done].
Qed.

Lemma indexOf_stem s : indexOf STEM s = None → indexOf SEPARATOR s = None.
Proof.
  induction s as [|c s IH]; [done |].
  intros [Hp Hs]%indexOf_cons_inv. apply indexOf_cons; [| by apply IH].
  destruct (String.prefix SEPARATOR (String c s)) eqn:E; [| done].
  change SEPARATOR with (STEM +:+ "---") in E.
  apply prefix_of_app in E. congruence.
Qed.

(** The separator cannot start inside a text that does not start with
    the stem, even when the text is followed by a separator. *)
Lemma no_early_match s rest :
  s ≠ "" → String.prefix STEM s = false →
  String.prefix SEPARATOR (s +:+ SEPARATOR +:+ rest) = false.
Proof.
  intros Hne H. unfold STEM in H. unfold SEPARATOR.
  destruct s as [|c s]; [done |]. clear Hne.
  do 19 (
    cbn [String.prefix String.append] in *;
    match type of H with
    | context [ascii_dec ?x ?y] => destruct (ascii_dec x y) as [<-|]; [| done]
    end;
    destruct s as [|? s]; [by cbn |]).
  cbn [String.prefix String.append] in *.
  match type of H with
  | context [ascii_dec ?x ?y] => destruct (ascii_dec x y) as [<-|]; [| done]
  end.
  by destruct s.
Qed.

Lemma indexOf_at_start c sep rest :
  indexOf (String c sep) (String c sep +:+ rest) = Some 0.
Proof.
  unfold indexOf.
  change (String c sep +:+ rest) with (String c (sep +:+ rest)).
  cbn [String.index].
  change (String c (sep +:+ rest)) with (String c sep +:+ rest).
  by rewrite prefix_app.
Qed.

(** After a text without the stem, the joining separator is the first. *)
Lemma indexOf_join s rest :
  indexOf STEM s = None →
  indexOf SEPARATOR (s +:+ SEPARATOR +:+ rest) = Some (String.length s).
Proof.
  induction s as [|c s IH].
  - intros _. change ("" +:+ SEPARATOR +:+ rest) with (SEPARATOR +:+ rest).
    apply indexOf_at_start.
  - intros [Hp Hs]%indexOf_cons_inv. specialize (IH Hs).
    unfold indexOf in *.
    change (String c s +:+ SEPARATOR +:+ rest)
      with (String c (s +:+ SEPARATOR +:+ rest)).
    cbn [String.index String.length].
    change (String c (s +:+ SEPARATOR +:+ rest))
      with (String c s +:+ SEPARATOR +:+ rest).
    rewrite no_early_match by done. by rewrite IH.
Qed.

End WrapFacts.

(** ** Further facts used by the main results *)

Section AssemblerFacts.

Variable lexer : string → list Token.

(** The raw text of a depth-3 heading reaches no body. *)
Lemma getSectionsByH3_heading_raw tokens1 text rw rw' tokens2 :
  getSectionsByH3 (tokens1 ++ Heading 3 text rw :: tokens2)
  = getSectionsByH3 (tokens1 ++ Heading 3 text rw' :: tokens2).
Proof. unfold getSectionsByH3. by rewrite !foldl_app. Qed.

(** A chunk and the same chunk inside a fence parse alike, provided the
    chunk is not itself of the shape the fence expression accepts. *)
Lemma parseChunk_wrapFence tag body :
  allChars isWordChar tag = true →
  wrapperShaped (trim body) = false →
  trim body ≠ "" →
  parseChunk lexer (wrapFence tag body) = parseChunk lexer body.
Proof.
  intros Htag Hshape Hne. unfold parseChunk, sectionsOf.
  rewrite trimMarkdownFence_wrapFence by done.
  rewrite (trimMarkdownFence_unshaped body) by done.
  rewrite trim_wrapFence.
  apply isEmpty_false in Hne. rewrite Hne.
  by rewrite wrapFence_shape.
Qed.

End AssemblerFacts.

(** * Main results *)

(** C1 fails as stated: for the input ["just plain text"] the only record
    is the fallback record, whose steps are [{title: "Error", ...}], while
    the step splitter applied to its explanation gives the single step
    titled "Detailed Explanation". *)
Lemma fallback_steps_not_derived :
  ¬ (∀ r, r ∈ problems (parseSolveResponse Marked.lexer "just plain text") →
          steps r = parseSteps Marked.lexer (explanation r)).
Proof.
  intros H. specialize (H (fallbackProblem "just plain text")).
  assert (steps (fallbackProblem "just plain text")
          = parseSteps Marked.lexer (explanation (fallbackProblem "just plain text")))
    as Heq.
  { apply H. vm_compute. constructor. }
  vm_compute in Heq. discriminate Heq.
Qed.

(** C1 (amended): every record of [parseSolveResponse] other than the
    fallback record, and every result of [parseImproveResponse], has its
    steps equal to the step splitter run on its own explanation; the
    fallback record carries the steps [{title: "Error", content: input}]
    instead. *)
Theorem steps_derived_from_explanation lexer response :
  (∀ r, r ∈ problems (parseSolveResponse lexer response) →
        steps r = parseSteps lexer (explanation r)
        ∨ (r = fallbackProblem response
           ∧ steps r = [mkStep "Error" response]))
  ∧ (∀ i, parseImproveResponse lexer response = Some i →
          improved_steps i = parseSteps lexer (improved_explanation i)).
Proof.
  split.
  - intros r [(chunk & _ & Hr)| ->]%parseSolveResponse_elem.
    + left. by apply parseChunk_Some in Hr as (_ & _ & _ & _ & ? & _).
    + by right.
  - intros i. unfold parseImproveResponse.
    destruct (_ && _); [done |]. by intros [= <-].
Qed.

Lemma steps_derived_from_explanation_witness :
  let r := mkProblem "P" sampleExplanation "X"
             [mkStep "Step 1: A" "C1"; mkStep "Step 2: B" "C2"] in
  r ∈ problems (parseSolveResponse Marked.lexer sampleSolve)
  ∧ (steps r = parseSteps Marked.lexer (explanation r)
     ∨ (r = fallbackProblem sampleSolve ∧ steps r = [mkStep "Error" sampleSolve])).
Proof.
  intros r.
  assert (r ∈ problems (parseSolveResponse Marked.lexer sampleSolve)) as Hin.
  { vm_compute. constructor. }
  split; [exact Hin |].
  exact (proj1 (steps_derived_from_explanation Marked.lexer sampleSolve) r Hin).
Defined.

(** C2: the well-formed sample of the specification parses into exactly one
    problem with [problem = "P"], [answer = "X"], an explanation holding
    both depth-4 headings with their bodies, and the two steps
    ["Step 1: A"/"C1"] and ["Step 2: B"/"C2"]. *)
Theorem parseSolveResponse_well_formed_sample :
  parseSolveResponse Marked.lexer sampleSolve
  = mkSolve [mkProblem "P"
               (joinLines ["#### Step 1: A"; "C1"; "#### Step 2: B"; "C2"])
               "X"
               [mkStep "Step 1: A" "C1"; mkStep "Step 2: B" "C2"]].
Proof. vm_compute. reflexivity. Qed.

(** C3 fails as stated: a text made of two separate complete fences with
    other content between them starts and ends with three backticks, so the
    fence stripper removes the opening marker of the first fence and the
    closing marker of the second. *)
Lemma trimMarkdownFence_strips_two_fences :
  trimMarkdownFence sampleTwoFences
  = joinLines ["x"; "```"; "between"; "```b"; "y"]
  ∧ trimMarkdownFence sampleTwoFences ≠ trim sampleTwoFences.
Proof. split; [vm_compute; reflexivity | vm_compute; discriminate]. Qed.

(** C3 (amended): the fence stripper returns the input trimmed and
    otherwise unchanged whenever the trimmed input does not both start and
    end with three backticks (six characters at least); when it does, the
    two markers and a leading language tag are removed and the rest is
    trimmed, whatever lies between the markers. *)
Theorem trimMarkdownFence_by_shape content :
  (wrapperShaped (trim content) = false →
   trimMarkdownFence content = trim content)
  ∧ (∀ m, trim content = "```" +:+ (m +:+ "```") →
          wrapperShaped (trim content) = true
          ∧ trimMarkdownFence content = trim (dropWhile isWordChar m)).
Proof.
  split.
  - apply trimMarkdownFence_unshaped.
  - intros m Hm. split.
    + rewrite Hm. apply wrapperShaped_intro.
    + by apply trimMarkdownFence_shaped.
Qed.

Lemma trimMarkdownFence_by_shape_witness :
  wrapperShaped (trim "  see ```x``` here  ") = false
  ∧ trimMarkdownFence "  see ```x``` here  " = "see ```x``` here".
Proof.
  split; [reflexivity |].
  exact (proj1 (trimMarkdownFence_by_shape "  see ```x``` here  ") eq_refl).
Defined.

(** C4: [parseImproveResponse] fails exactly when the sections
    [IMPROVED_EXPLANATION] and [IMPROVED_ANSWER] are both absent or empty;
    otherwise it returns the two bodies, an absent one as the empty text,
    with the steps the step splitter derives from the explanation (none
    when it is empty).  The response ["### UNRELATED\nfoo"] is a failure. *)
Theorem parseImproveResponse_failure_iff :
  (∀ lexer response,
     let sections := sectionsOf lexer response in
     let e := orEmpty (sections !! "IMPROVED_EXPLANATION") in
     let a := orEmpty (sections !! "IMPROVED_ANSWER") in
     (parseImproveResponse lexer response = None ↔ e = "" ∧ a = "")
     ∧ (¬ (e = "" ∧ a = "") →
        parseImproveResponse lexer response
        = Some (mkImprove a e (parseSteps lexer e)))
     ∧ (sections !! "IMPROVED_EXPLANATION" = None → e = "")
     ∧ (sections !! "IMPROVED_ANSWER" = None → a = "")
     ∧ (e = "" → parseSteps lexer e = []))
  ∧ parseImproveResponse Marked.lexer (joinLines ["### UNRELATED"; "foo"]) = None.
Proof.
  split; [| vm_compute; reflexivity].
  intros lexer response sections e a. unfold parseImproveResponse.
  fold sections. fold e. fold a.
  split_and!.
  - destruct e, a; simpl; split; (done || by intros [? ?]).
  - intros Hne. destruct e, a; simpl; try done. by destruct Hne.
  - subst e. by intros ->.
  - subst a. by intros ->.
  - by intros ->.
Qed.

Lemma parseImproveResponse_failure_iff_witness :
  parseImproveResponse Marked.lexer (joinLines ["### IMPROVED_ANSWER"; "42"])
  = Some (mkImprove "42" "" []).
Proof.
  refine (eq_trans
    (proj1 (proj2 (proj1 parseImproveResponse_failure_iff Marked.lexer
                     (joinLines ["### IMPROVED_ANSWER"; "42"]))) _) _).
  - vm_compute. intros [_ H]. discriminate H.
  - vm_compute. reflexivity.
Defined.

(** C5: [parseSolveResponse] is total.  When no chunk yields a problem and
    the trimmed input is not empty, the result is exactly the fallback
    record (problem ["Error parsing problem text"], empty answer, the whole
    input as explanation and as the content of the single step titled
    ["Error"]); when the trimmed input is empty the result has no problem.
    In particular for ["just plain text"] and for the empty input. *)
Theorem parseSolveResponse_fallback_policy :
  (∀ lexer response,
     omap (parseChunk lexer) (split SEPARATOR response) = [] →
     trim response ≠ "" →
     parseSolveResponse lexer response
     = mkSolve [mkProblem "Error parsing problem text" response ""
                  [mkStep "Error" response]])
  ∧ (∀ lexer response,
       trim response = "" → parseSolveResponse lexer response = mkSolve [])
  ∧ parseSolveResponse Marked.lexer "just plain text"
    = mkSolve [mkProblem "Error parsing problem text" "just plain text" ""
                 [mkStep "Error" "just plain text"]]
  ∧ parseSolveResponse Marked.lexer "" = mkSolve [].
Proof.
  split_and!; [| | vm_compute; reflexivity | vm_compute; reflexivity].
  - intros lexer response Hnone Hne. unfold parseSolveResponse.
    rewrite Hnone. apply truthy_true in Hne. by rewrite Hne.
  - intros lexer response Hempty. unfold parseSolveResponse.
    rewrite split_whitespace by done. simpl.
    unfold parseChunk. by rewrite Hempty.
Qed.

Lemma parseSolveResponse_fallback_policy_witness :
  parseSolveResponse Marked.lexer "no headings here"
  = mkSolve [mkProblem "Error parsing problem text" "no headings here" ""
               [mkStep "Error" "no headings here"]]
  ∧ parseSolveResponse Marked.lexer "   " = mkSolve [].
Proof.
  split.
  - apply (proj1 parseSolveResponse_fallback_policy Marked.lexer).
    + vm_compute. reflexivity.
    + vm_compute. discriminate.
  - apply (proj1 (proj2 parseSolveResponse_fallback_policy) Marked.lexer).
    vm_compute. reflexivity.
Defined.

(** C7: on a body whose tokens hold no depth-4 heading the step splitter
    returns the single step titled ["Detailed Explanation"] whose content
    is the trimmed body, when that is not empty; on the empty body (and on
    a body of whitespace without such a heading) it returns no step. *)
Theorem parseSteps_without_depth4 lexer body :
  (trim body ≠ "" → noHeading 4 (lexer body) →
   parseSteps lexer body = [mkStep "Detailed Explanation" (trim body)])
  ∧ (body = "" → parseSteps lexer body = [])
  ∧ (trim body = "" → noHeading 4 (lexer body) → parseSteps lexer body = []).
Proof.
  split_and!.
  - intros Hne%truthy_true Hno. by rewrite parseSteps_without_heading, Hne.
  - by intros ->.
  - intros He Hno. by rewrite parseSteps_without_heading, He.
Qed.

Lemma parseSteps_without_depth4_witness :
  trim " some text " ≠ ""
  ∧ noHeading 4 (Marked.lexer " some text ")
  ∧ parseSteps Marked.lexer " some text "
    = [mkStep "Detailed Explanation" "some text"].
Proof.
  assert (trim " some text " ≠ "") as H1 by (vm_compute; discriminate).
  assert (noHeading 4 (Marked.lexer " some text ")) as H2
    by (vm_compute; repeat constructor).
  split_and!; [exact H1 | exact H2 |].
  exact (proj1 (parseSteps_without_depth4 Marked.lexer " some text ") H1 H2).
Defined.

(** C8 fails as stated: the fallback record quotes the input as it was
    received, fence included, so ["just plain text"] and the same text
    inside a fence give different results. *)
Lemma fenced_fallback_differs :
  parseSolveResponse Marked.lexer (wrapFence "" "just plain text")
  ≠ parseSolveResponse Marked.lexer "just plain text".
Proof. vm_compute. discriminate. Qed.

(** C8 (amended): for an input that holds no separator, is not itself of
    the shape the fence expression accepts, and from which a problem is
    parsed, wrapping it once in a fence (with a language tag of word
    characters, or none) does not change the result of
    [parseSolveResponse]. *)
Theorem parseSolveResponse_fenced lexer tag body r :
  allChars isWordChar tag = true →
  indexOf SEPARATOR body = None →
  wrapperShaped (trim body) = false →
  parseChunk lexer body = Some r →
  parseSolveResponse lexer (wrapFence tag body) = parseSolveResponse lexer body
  ∧ parseSolveResponse lexer body = mkSolve [r].
Proof.
  intros Htag Hsep Hshape Hr.
  assert (trim body ≠ "") as Hne by by apply parseChunk_Some in Hr as [? _].
  rewrite (parseSolveResponse_single lexer body r)
    by (done || by apply split_no_sep).
  split; [| done].
  apply parseSolveResponse_single.
  - by apply split_no_sep, indexOf_wrapFence.
  - by rewrite parseChunk_wrapFence.
Qed.

Lemma parseSolveResponse_fenced_witness :
  let r := mkProblem "P" sampleExplanation "X"
             [mkStep "Step 1: A" "C1"; mkStep "Step 2: B" "C2"] in
  allChars isWordChar "markdown" = true
  ∧ indexOf SEPARATOR sampleSolve = None
  ∧ wrapperShaped (trim sampleSolve) = false
  ∧ parseChunk Marked.lexer sampleSolve = Some r
  ∧ parseSolveResponse Marked.lexer (wrapFence "markdown" sampleSolve)
    = parseSolveResponse Marked.lexer sampleSolve.
Proof.
  intros r.
  assert (allChars isWordChar "markdown" = true) as H1 by reflexivity.
  assert (indexOf SEPARATOR sampleSolve = None) as H2
    by (vm_compute; reflexivity).
  assert (wrapperShaped (trim sampleSolve) = false) as H3
    by (vm_compute; reflexivity).
  assert (parseChunk Marked.lexer sampleSolve = Some r) as H4
    by (vm_compute; reflexivity).
  split_and!; try assumption.
  exact (proj1 (parseSolveResponse_fenced Marked.lexer "markdown" sampleSolve r
                  H1 H2 H3 H4)).
Defined.

(** C9 fails as stated: the two texts below hold no separator and each
    parses into one problem, yet joined by the separator they give a
    single record.  The first text ends with the stem of the separator, so
    the first match of the separator in the joined text starts inside the
    first text, and what follows the cut holds no section. *)
Lemma two_problems_joined_give_one :
  singleProblem Marked.lexer sampleStemEnd
    (mkProblem "" "" "x---PROBLEM_SEPARATOR" [])
  ∧ singleProblem Marked.lexer sampleAnswerY (mkProblem "" "" "y" [])
  ∧ parseSolveResponse Marked.lexer sampleStemEnd
    = mkSolve [mkProblem "" "" "x---PROBLEM_SEPARATOR" []]
  ∧ parseSolveResponse Marked.lexer sampleAnswerY
    = mkSolve [mkProblem "" "" "y" []]
  ∧ parseSolveResponse Marked.lexer
      (sampleStemEnd +:+ SEPARATOR +:+ sampleAnswerY)
    = mkSolve [mkProblem "" "" "x" []]
  ∧ ¬ (∀ a b ra rb,
         singleProblem Marked.lexer a ra → singleProblem Marked.lexer b rb →
         parseSolveResponse Marked.lexer (a +:+ SEPARATOR +:+ b)
         = mkSolve [ra; rb]).
Proof.
  assert (singleProblem Marked.lexer sampleStemEnd
            (mkProblem "" "" "x---PROBLEM_SEPARATOR" [])) as Ha
    by (split; vm_compute; reflexivity).
  assert (singleProblem Marked.lexer sampleAnswerY (mkProblem "" "" "y" []))
    as Hb by (split; vm_compute; reflexivity).
  split_and!; [exact Ha | exact Hb | vm_compute; reflexivity ..|].
  intros H. specialize (H _ _ _ _ Ha Hb). vm_compute in H. discriminate H.
Qed.

(** C9 (amended): two well-formed single-problem texts (each free of the
    separator, each parsed into a problem) joined by the separator give
    exactly the two problems, the first text's first, provided the joining
    separator is the first occurrence of the separator in the joined text;
    this is so in particular when the first text does not hold the stem of
    the separator.  Nothing more is asked of the second text. *)
Theorem parseSolveResponse_two_problems lexer a b ra rb :
  singleProblem lexer a ra →
  singleProblem lexer b rb →
  parseSolveResponse lexer a = mkSolve [ra]
  ∧ parseSolveResponse lexer b = mkSolve [rb]
  ∧ (indexOf SEPARATOR (a +:+ SEPARATOR +:+ b) = Some (String.length a) →
     parseSolveResponse lexer (a +:+ SEPARATOR +:+ b) = mkSolve [ra; rb])
  ∧ (indexOf STEM a = None →
     parseSolveResponse lexer (a +:+ SEPARATOR +:+ b) = mkSolve [ra; rb]).
Proof.
  intros [Ha Hra] [Hb Hrb].
  assert (indexOf SEPARATOR (a +:+ SEPARATOR +:+ b) = Some (String.length a) →
          parseSolveResponse lexer (a +:+ SEPARATOR +:+ b) = mkSolve [ra; rb])
    as Hjoin.
  { intros Hcut. unfold parseSolveResponse. rewrite split_join by done.
    simpl. by rewrite Hra, Hrb. }
  split_and!.
  - apply parseSolveResponse_single; [| done]. by apply split_no_sep.
  - apply parseSolveResponse_single; [| done]. by apply split_no_sep.
  - exact Hjoin.
  - intros Hstem. by apply Hjoin, indexOf_join.
Qed.

Lemma parseSolveResponse_two_problems_witness :
  let ra := mkProblem "P" sampleExplanation "X"
              [mkStep "Step 1: A" "C1"; mkStep "Step 2: B" "C2"] in
  let rb := mkProblem "" "" "second" [] in
  singleProblem Marked.lexer sampleSolve ra
  ∧ singleProblem Marked.lexer sampleTwoAnswers rb
  ∧ indexOf SEPARATOR (sampleSolve +:+ SEPARATOR +:+ sampleTwoAnswers)
    = Some (String.length sampleSolve)
  ∧ parseSolveResponse Marked.lexer
      (sampleSolve +:+ SEPARATOR +:+ sampleTwoAnswers)
    = mkSolve [ra; rb].
Proof.
  intros ra rb.
  assert (singleProblem Marked.lexer sampleSolve ra) as Ha
    by (split; vm_compute; reflexivity).
  assert (singleProblem Marked.lexer sampleTwoAnswers rb) as Hb
    by (split; vm_compute; reflexivity).
  assert (indexOf SEPARATOR (sampleSolve +:+ SEPARATOR +:+ sampleTwoAnswers)
          = Some (String.length sampleSolve)) as Hcut
    by (vm_compute; reflexivity).
  split_and!; try assumption.
  exact (proj1 (proj2 (proj2 (parseSolveResponse_two_problems Marked.lexer
                                sampleSolve sampleTwoAnswers ra rb Ha Hb)))
           Hcut).
Defined.

(** C10: every record parsed from a chunk has trimmed fields (problem,
    explanation, answer, and the title and content of each step); a record
    of the result that is not so is the fallback record, which quotes the
    input with its surrounding whitespace. *)
Theorem parseSolveResponse_fields_trimmed :
  (∀ lexer chunk r, parseChunk lexer chunk = Some r → fullyTrimmed r)
  ∧ (∀ lexer response r,
       r ∈ problems (parseSolveResponse lexer response) →
       fullyTrimmed r ∨ r = fallbackProblem response)
  ∧ (parseSolveResponse Marked.lexer "  plain  "
     = mkSolve [fallbackProblem "  plain  "]
     ∧ ¬ trimmed (explanation (fallbackProblem "  plain  "))
     ∧ ¬ Forall trimmedStep (steps (fallbackProblem "  plain  "))).
Proof.
  split_and!.
  - apply parseChunk_trimmed.
  - intros lexer response r [(chunk & _ & Hr)| ->]%parseSolveResponse_elem.
    + left. by eapply parseChunk_trimmed.
    + by right.
  - vm_compute. reflexivity.
  - vm_compute. discriminate.
  - intros [[_ H] _]%Forall_cons. vm_compute in H. discriminate H.
Qed.

Lemma parseSolveResponse_fields_trimmed_witness :
  fullyTrimmed (mkProblem "P" sampleExplanation "X"
                  [mkStep "Step 1: A" "C1"; mkStep "Step 2: B" "C2"]).
Proof.
  refine (proj1 parseSolveResponse_fields_trimmed Marked.lexer sampleSolve _ _).
  vm_compute. reflexivity.
Defined.

(** * Further properties of the parser *)

Section StepFacts.

Variable lexer : string → list Token.

Implicit Types (t : Token) (tokens : list Token) (s : ExplanationStep)
  (steps : list ExplanationStep) (cur : option ExplanationStep).

Lemma headingText_Some d t text :
  headingText d t = Some text → isHeading d t = true.
Proof.
  destruct t as [d' text' rw|kind rw]; simpl; [| done].
  by destruct (d' =? d)%nat.
Qed.

Lemma isHeading_true d t :
  isHeading d t = true → ∃ text, headingText d t = Some text.
Proof.
  destruct t as [d' text' rw|kind rw]; simpl; [| done]. intros ->. eauto.
Qed.

Lemma headingKeys_app d tokens1 tokens2 :
  headingKeys d (tokens1 ++ tokens2)
  = headingKeys d tokens1 ++ headingKeys d tokens2.
Proof. unfold headingKeys. by rewrite omap_app, fmap_app. Qed.

Lemma headingKeys_without d tokens : noHeading d tokens → headingKeys d tokens = [].
Proof.
  unfold headingKeys. induction 1 as [|t tokens Ht _ IH]; simpl; [done |].
  by rewrite (headingText_None _ _ Ht).
Qed.

(** The steps of a loop state, finished or not, in order. *)
Lemma stepStep_titles_eq tokens steps cur :
  title <$> ((foldl stepStep (steps, cur) tokens).1
             ++ option_list (foldl stepStep (steps, cur) tokens).2)
  = (title <$> (steps ++ option_list cur)) ++ headingKeys 4 tokens.
Proof.
  revert steps cur. unfold headingKeys.
  induction tokens as [|t tokens IH]; intros steps cur; cbn [foldl].
  { simpl. by rewrite List.app_nil_r. }
  unfold stepStep at 2 4.
  destruct (headingText 4 t) as [text|] eqn:Ht; simpl; rewrite ?Ht.
  - rewrite IH. destruct cur as [s|]; simpl;
      rewrite ?fmap_app, ?List.app_nil_r; simpl; by rewrite <- ?List.app_assoc.
  - destruct cur as [s|]; rewrite IH; simpl; by rewrite ?fmap_app.
Qed.

(** The loop never touches a step it has stored. *)
Lemma stepStep_prefix tokens steps cur :
  ∃ more, (foldl stepStep (steps, cur) tokens).1
          ++ option_list (foldl stepStep (steps, cur) tokens).2
          = steps ++ more.
Proof.
  revert steps cur.
  induction tokens as [|t tokens IH]; intros steps cur; cbn [foldl].
  { by exists (option_list cur). }
  unfold stepStep at 2 4.
  destruct (headingText 4 t) as [text|].
  - destruct cur as [s|].
    + destruct (IH (steps ++ [s]) (Some (mkStep (trim text) ""))) as [more ->].
      exists (s :: more). by rewrite <- List.app_assoc.
    + apply IH.
  - destruct cur as [s|]; apply IH.
Qed.

(** Without a depth-4 heading the tokens all go to the current step. *)
Lemma stepStep_body tokens steps s :
  noHeading 4 tokens →
  foldl stepStep (steps, Some s) tokens
  = (steps, Some (mkStep (title s) (content s +:+ concat (raw <$> tokens)))).
Proof.
  intros Hno. revert s.
  induction Hno as [|t tokens Ht _ IH]; intros s.
  { simpl. rewrite app_nil_r. by destruct s. }
  cbn [foldl]. unfold stepStep at 2. rewrite (headingText_None _ _ Ht).
  rewrite IH. simpl. by rewrite app_assoc.
Qed.

(** What [parseSteps] returns in terms of the final state of its loop. *)
Lemma parseSteps_unfold body :
  body ≠ "" →
  let st := foldl stepStep ([], None) (lexer body) in
  let final := (λ s, mkStep (title s) (trim (content s)))
               <$> (st.1 ++ option_list st.2) in
  parseSteps lexer body
  = if (length final =? 0)%nat && truthy (trim body)
    then [mkStep "Detailed Explanation" (trim body)]
    else final.
Proof.
  intros Hne%isEmpty_false. unfold parseSteps. rewrite Hne.
  destruct (foldl stepStep ([], None) (lexer body)) as [steps cur].
  simpl. destruct cur as [s|]; simpl; by rewrite ?List.app_nil_r.
Qed.

Lemma parseSteps_nonempty body : trim body ≠ "" → parseSteps lexer body ≠ [].
Proof.
  intros Hne. rewrite parseSteps_unfold by by intros ->.
  cbv zeta.
  match goal with |- context [length ?l] => destruct l as [|s l'] eqn:E end.
  - simpl. apply truthy_true in Hne. by rewrite Hne.
  - done.
Qed.

End StepFacts.

Section StepResults.

Variable lexer : string → list Token.

(** From a depth-4 heading on: the step it opens takes the tokens up to
    the next depth-4 heading, after the steps stored so far. *)
Lemma stepStep_segment steps cur text rw seg rest :
  noHeading 4 seg → startsWithHeading 4 rest →
  ∃ more,
    (foldl stepStep (steps, cur) (Heading 4 text rw :: seg ++ rest)).1
    ++ option_list (foldl stepStep (steps, cur) (Heading 4 text rw :: seg ++ rest)).2
    = (steps ++ option_list cur)
      ++ mkStep (trim text) (concat (raw <$> seg)) :: more.
Proof.
  intros Hseg Hrest. cbn [foldl]. rewrite foldl_app.
  assert (stepStep (steps, cur) (Heading 4 text rw)
          = (steps ++ option_list cur, Some (mkStep (trim text) ""))) as ->.
  { unfold stepStep. simpl. destruct cur; simpl; by rewrite ?List.app_nil_r. }
  rewrite stepStep_body by done. cbn [title content String.append].
  destruct rest as [|h rest]; cbn [foldl startsWithHeading] in *.
  - by exists [].
  - apply isHeading_true in Hrest as [text' Hh].
    unfold stepStep at 2 4. rewrite Hh. cbn [title content option_list].
    destruct (stepStep_prefix rest
                ((steps ++ option_list cur)
                 ++ [mkStep (trim text) (concat (raw <$> seg))])
                (Some (mkStep (trim text') ""))) as [more ->].
    exists more. by rewrite <- List.app_assoc.
Qed.


(** The step opened by a depth-4 heading holds the trimmed raw text of the
    tokens up to the next depth-4 heading; its position is the number of
    depth-4 headings before it.  What precedes the first such heading
    belongs to no step. *)
Theorem parseSteps_step body pre text rw seg rest :
  body ≠ "" →
  lexer body = pre ++ Heading 4 text rw :: seg ++ rest →
  noHeading 4 seg → startsWithHeading 4 rest →
  parseSteps lexer body !! length (headingKeys 4 pre)
  = Some (mkStep (trim text) (trim (concat (raw <$> seg)))).
Proof.
  intros Hne Hlex Hseg Hrest. rewrite parseSteps_unfold by done. cbv zeta.
  rewrite Hlex, foldl_app.
  pose proof (stepStep_titles_eq pre [] None) as Ht. simpl in Ht.
  destruct (foldl stepStep ([], None) pre) as [steps cur]. simpl in Ht.
  destruct (stepStep_segment steps cur text rw seg rest Hseg Hrest)
    as [more ->].
  assert (length (headingKeys 4 pre) = length (steps ++ option_list cur)) as ->.
  { by rewrite <- Ht, length_fmap. }
  rewrite fmap_app, fmap_cons. cbn [title content].
  match goal with
  | |- context [(length ?l =? 0)%nat] => destruct (length l =? 0)%nat eqn:E
  end.
  { apply Nat.eqb_eq in E. rewrite List.length_app in E. simpl in E. lia. }
  simpl. apply list_lookup_middle. by rewrite length_fmap.
Qed.

End StepResults.


Lemma parseSteps_step_witness :
  parseSteps Marked.lexer
    (joinLines ["intro"; "#### One"; "a"; "## note"; "b"; "#### Two"; "c"])
  !! 0 = Some (mkStep "One" (joinLines ["a"; "## note"; "b"])).
Proof.
  refine (eq_trans
    (parseSteps_step Marked.lexer
       (joinLines ["intro"; "#### One"; "a"; "## note"; "b"; "#### Two"; "c"])
       [Block paragraph (String.append "intro" (String LF ""))]
       "One" (String.append "#### One" (String LF ""))
       [Block paragraph (String.append "a" (String LF ""));
        Heading 2 "note" (String.append "## note" (String LF ""));
        Block paragraph (String.append "b" (String LF ""))]
       [Heading 4 "Two" (String.append "#### Two" (String LF ""));
        Block paragraph "c"]
       _ _ _ _) _).
  - vm_compute. discriminate.
  - vm_compute. reflexivity.
  - repeat constructor.
  - reflexivity.
  - vm_compute. reflexivity.
Defined.

Section GrouperResults.

Implicit Types (k v : string) (t : Token) (tokens : list Token)
  (m : gmap string string) (cur : option string).

Lemma setProp_lookup_ne k k' v m : k' ≠ k → setProp k' v m !! k = m !! k.
Proof.
  intros Hne. unfold setProp. case_decide; [done |]. by apply lookup_insert_ne.
Qed.

Lemma setProp_is_Some k k' v m :
  is_Some (setProp k' v m !! k)
  ↔ is_Some (m !! k) ∨ (k = k' ∧ k ≠ "__proto__").
Proof.
  unfold setProp. case_decide as Hp.
  - split; [by left | intros [?|[-> ?]]; done].
  - destruct (decide (k = k')) as [->|Hne].
    + rewrite lookup_insert_eq. split; eauto.
    + rewrite lookup_insert_ne by done. split; [by left | by intros [?|[? ?]]].
Qed.

Lemma headingKeys_cons_Some d t tokens text :
  headingText d t = Some text →
  headingKeys d (t :: tokens) = trim text :: headingKeys d tokens.
Proof. unfold headingKeys. simpl. by intros ->. Qed.

Lemma headingKeys_cons_None d t tokens :
  headingText d t = None → headingKeys d (t :: tokens) = headingKeys d tokens.
Proof. unfold headingKeys. simpl. by intros ->. Qed.

(** A section that is neither current nor opened again keeps its body. *)
Lemma sectionStep_lookup_other tokens m cur k :
  cur ≠ Some k → k ∉ headingKeys 3 tokens →
  (foldl sectionStep (m, cur) tokens).1 !! k = m !! k.
Proof.
  revert m cur. induction tokens as [|t tokens IH]; intros m cur Hcur Hk.
  { done. }
  cbn [foldl]. unfold sectionStep at 2.
  destruct (headingText 3 t) as [text|] eqn:Ht.
  - rewrite (headingKeys_cons_Some _ _ _ _ Ht) in Hk.
    apply not_elem_of_cons in Hk as [Hne Hk].
    destruct (truthy (trim text)).
    + rewrite IH by (done || congruence). by apply setProp_lookup_ne.
    + apply IH; (done || congruence).
  - rewrite (headingKeys_cons_None _ _ _ Ht) in Hk.
    destruct cur as [c|]; [| by apply IH].
    destruct (truthy c); [| by apply IH].
    rewrite IH by done. unfold appendProp. apply setProp_lookup_ne. congruence.
Qed.

(** The keys present after the loop: those present before, and the
    non-empty trimmed texts of the depth-3 headings. *)
Lemma sectionStep_keys tokens m cur k :
  keyOpen (m, cur) →
  is_Some ((foldl sectionStep (m, cur) tokens).1 !! k)
  ↔ is_Some (m !! k)
    ∨ (k ≠ "" ∧ k ≠ "__proto__" ∧ k ∈ headingKeys 3 tokens).
Proof.
  revert m cur. induction tokens as [|t tokens IH]; intros m cur Hopen.
  { simpl. split; [by left | intros [?|(_ & _ & H)]; [done |]].
    by apply elem_of_nil in H. }
  pose proof (sectionStep_keyOpen (m, cur) t Hopen) as Hopen'.
  cbn [foldl]. unfold sectionStep at 2. unfold sectionStep in Hopen'.
  destruct (headingText 3 t) as [text|] eqn:Ht.
  - rewrite (headingKeys_cons_Some _ _ _ _ Ht), elem_of_cons.
    destruct (truthy (trim text)) eqn:Hk.
    + rewrite IH by done. rewrite setProp_is_Some.
      apply truthy_true in Hk. split.
      * intros [[?|[-> ?]]|(? & ? & ?)]; auto.
      * intros [?|(? & ? & [->|?])]; auto.
    + rewrite IH by done.
      assert (trim text = "") as ->.
      { destruct (trim text); [done | discriminate Hk]. }
      split.
      * intros [?|(? & ? & ?)]; auto.
      * intros [?|(? & ? & [->|?])]; auto. done.
  - rewrite (headingKeys_cons_None _ _ _ Ht).
    destruct cur as [c|]; [| by apply IH].
    destruct (truthy c) eqn:Hc; [| by apply IH].
    rewrite IH by done. unfold appendProp. rewrite setProp_is_Some.
    split.
    + intros [[?|[-> ?]]|?]; auto; left; by apply Hopen.
    + intros [?|?]; auto.
Qed.

Lemma sectionStep_preamble tokens :
  noHeading 3 tokens → foldl sectionStep (∅, None) tokens = (∅, None).
Proof.
  induction 1 as [|t tokens Ht _ IH]; [done |].
  cbn [foldl]. unfold sectionStep at 2. by rewrite (headingText_None _ _ Ht).
Qed.

(** A key is present in the result of [getSectionsByH3] exactly when it is
    the trimmed text of some depth-3 heading, is not empty, and is not
    ["__proto__"]. *)
Theorem getSectionsByH3_keys tokens k :
  is_Some (getSectionsByH3 tokens !! k)
  ↔ k ≠ "" ∧ k ≠ "__proto__" ∧ k ∈ headingKeys 3 tokens.
Proof.
  unfold getSectionsByH3.
  pose proof (sectionStep_keys tokens ∅ None k) as H.
  destruct (foldl sectionStep (∅, None) tokens) as [m cur]. simpl in H.
  rewrite lookup_fmap, fmap_is_Some, H by done.
  rewrite lookup_empty. split; [intros [[? [=]]|?]; done | by right].
Qed.

(** The body of a section is the trimmed raw text of the tokens between
    its heading and the next depth-3 heading (headings of other depths
    included), whatever comes before and after, as long as its key is not
    opened again. *)
Theorem getSectionsByH3_body tokens1 text rw seg rest :
  trim text ≠ "" → trim text ≠ "__proto__" →
  noHeading 3 seg → startsWithHeading 3 rest →
  trim text ∉ headingKeys 3 rest →
  getSectionsByH3 (tokens1 ++ Heading 3 text rw :: seg ++ rest) !! trim text
  = Some (trim (concat (raw <$> seg))).
Proof.
  intros Hk Hp Hseg Hrest Hnot. apply truthy_true in Hk.
  unfold getSectionsByH3. rewrite foldl_app. cbn [foldl]. rewrite foldl_app.
  destruct (foldl sectionStep (∅, None) tokens1) as [m1 c1].
  rewrite sectionStep_heading by done.
  unfold setProp. rewrite decide_False by done.
  rewrite (foldl_sectionStep_body seg _ _ "") by (done || apply lookup_insert_eq).
  rewrite insert_insert_eq. simpl String.append.
  set (m := <[trim text:=concat (raw <$> seg)]> m1).
  assert ((foldl sectionStep (m, Some (trim text)) rest).1 !! trim text
          = Some (concat (raw <$> seg))) as Hlook.
  { destruct rest as [|h rest]; cbn [foldl startsWithHeading] in *.
    - apply lookup_insert_eq.
    - apply isHeading_true in Hrest as [text' Hh].
      rewrite (headingKeys_cons_Some _ _ _ _ Hh) in Hnot.
      apply not_elem_of_cons in Hnot as [Hne Hnot].
      unfold sectionStep at 2. rewrite Hh.
      destruct (truthy (trim text')).
      + rewrite sectionStep_lookup_other by (done || congruence).
        rewrite setProp_lookup_ne by done. apply lookup_insert_eq.
      + rewrite sectionStep_lookup_other by (done || congruence).
        apply lookup_insert_eq. }
  destruct (foldl sectionStep (m, Some (trim text)) rest) as [m' c'].
  simpl in Hlook. by rewrite lookup_fmap, Hlook.
Qed.

(** What precedes the first depth-3 heading reaches no section. *)
Theorem getSectionsByH3_preamble pre tokens :
  noHeading 3 pre →
  getSectionsByH3 (pre ++ tokens) = getSectionsByH3 tokens.
Proof.
  intros Hpre. unfold getSectionsByH3.
  by rewrite foldl_app, sectionStep_preamble.
Qed.

End GrouperResults.

(** ** A section key that occurs again *)

Section RepeatedKey.

Implicit Types (tokens seg rest : list Token) (m : gmap string string)
  (cur : option string).

(** From a depth-3 heading on, whatever the loop has gathered so far: the
    body under the heading's key is the raw text of the tokens up to the
    next depth-3 heading, as long as the key is not opened again. *)
Lemma sectionStep_section m cur text rw seg rest :
  truthy (trim text) = true → trim text ≠ "__proto__" →
  noHeading 3 seg → startsWithHeading 3 rest →
  trim text ∉ headingKeys 3 rest →
  (foldl sectionStep (m, cur) (Heading 3 text rw :: seg ++ rest)).1 !! trim text
  = Some (concat (raw <$> seg)).
Proof.
  intros Hk Hp Hseg Hrest Hnot.
  cbn [foldl]. rewrite foldl_app.
  rewrite sectionStep_heading by done.
  unfold setProp. rewrite decide_False by done.
  rewrite (foldl_sectionStep_body seg _ _ "") by (done || apply lookup_insert_eq).
  rewrite insert_insert_eq. simpl String.append.
  destruct rest as [|h rest]; cbn [foldl startsWithHeading] in *.
  - apply lookup_insert_eq.
  - apply isHeading_true in Hrest as [text' Hh].
    rewrite (headingKeys_cons_Some _ _ _ _ Hh) in Hnot.
    apply not_elem_of_cons in Hnot as [Hne Hnot].
    unfold sectionStep at 2. rewrite Hh.
    destruct (truthy (trim text')).
    + rewrite sectionStep_lookup_other by (done || congruence).
      rewrite setProp_lookup_ne by done. apply lookup_insert_eq.
    + rewrite sectionStep_lookup_other by (done || congruence).
      apply lookup_insert_eq.
Qed.

End RepeatedKey.

(** C6: when a depth-3 heading key occurs again, the section grouper
    starts that section afresh.  The bodies are those of the document from
    the second heading on, completed by the earlier bodies only under the
    keys not opened again (the earlier body of the repeated key is lost,
    not extended); the heading line itself reaches no body; and the body
    of the key is the trimmed text between the second heading and the next
    depth-3 heading (or the end), whatever sections follow, as long as the
    key does not occur a third time.  Hence a chunk with two [### ANSWER]
    sections yields a record whose answer is the second body alone, also
    when other sections follow it. *)
Theorem getSectionsByH3_duplicate_key :
  (∀ tokens1 text rw tokens2,
     trim text ≠ "" →
     getSectionsByH3 (tokens1 ++ Heading 3 text rw :: tokens2)
     = getSectionsByH3 (Heading 3 text rw :: tokens2) ∪ getSectionsByH3 tokens1)
  ∧ (∀ tokens1 text rw rw' tokens2,
       getSectionsByH3 (tokens1 ++ Heading 3 text rw :: tokens2)
       = getSectionsByH3 (tokens1 ++ Heading 3 text rw' :: tokens2))
  ∧ (∀ tokens1 text rw seg rest,
       trim text ≠ "" → trim text ≠ "__proto__" →
       noHeading 3 seg → startsWithHeading 3 rest →
       trim text ∉ headingKeys 3 rest →
       getSectionsByH3 (tokens1 ++ Heading 3 text rw :: seg ++ rest) !! trim text
       = Some (trim (concat (raw <$> seg))))
  ∧ (∀ lexer chunk tokens1 text rw seg rest,
       lexer (trimMarkdownFence chunk)
       = tokens1 ++ Heading 3 text rw :: seg ++ rest →
       trim text = "ANSWER" →
       noHeading 3 seg → startsWithHeading 3 rest →
       "ANSWER" ∉ headingKeys 3 rest →
       (∀ r, parseChunk lexer chunk = Some r →
             answer r = trim (concat (raw <$> seg)))
       ∧ (trim chunk ≠ "" → trim (concat (raw <$> seg)) ≠ "" →
          ∃ r, parseChunk lexer chunk = Some r
               ∧ answer r = trim (concat (raw <$> seg))))
  ∧ parseSolveResponse Marked.lexer sampleTwoAnswers
    = mkSolve [mkProblem "" "" "second" []]
  ∧ parseSolveResponse Marked.lexer sampleTwoAnswersThen
    = mkSolve [mkProblem "" "why" "second"
                 [mkStep "Detailed Explanation" "why"]].
Proof.
  assert (∀ tokens1 text rw seg rest,
            trim text ≠ "" → trim text ≠ "__proto__" →
            noHeading 3 seg → startsWithHeading 3 rest →
            trim text ∉ headingKeys 3 rest →
            getSectionsByH3 (tokens1 ++ Heading 3 text rw :: seg ++ rest)
              !! trim text
            = Some (trim (concat (raw <$> seg)))) as Hbody.
  { intros tokens1 text rw seg rest Hk%truthy_true Hp Hseg Hrest Hnot.
    unfold getSectionsByH3. rewrite foldl_app.
    destruct (foldl sectionStep (∅, None) tokens1) as [m1 c1].
    pose proof (sectionStep_section m1 c1 text rw seg rest
                  Hk Hp Hseg Hrest Hnot) as Hlook.
    destruct (foldl sectionStep (m1, c1) (Heading 3 text rw :: seg ++ rest))
      as [m' c'].
    simpl in Hlook. by rewrite lookup_fmap, Hlook. }
  split_and!; [| | exact Hbody | | vm_compute; reflexivity
               | vm_compute; reflexivity].
  - apply getSectionsByH3_restart.
  - apply getSectionsByH3_heading_raw.
  - intros lexer chunk tokens1 text rw seg rest Hlex Hk Hseg Hrest Hnot.
    assert (sectionsOf lexer chunk !! "ANSWER"
            = Some (trim (concat (raw <$> seg)))) as Ha.
    { unfold sectionsOf. rewrite Hlex, <- Hk.
      apply Hbody; by rewrite ?Hk. }
    split.
    + intros r (_ & _ & _ & -> & _)%parseChunk_Some. by rewrite Ha.
    + intros Hc Hne. unfold parseChunk.
      apply isEmpty_false in Hc. rewrite Hc, Ha. simpl.
      apply truthy_true in Hne. rewrite Hne, !orb_true_r. eauto.
Qed.

Lemma getSectionsByH3_duplicate_key_witness :
  getSectionsByH3 (Marked.lexer sampleTwoAnswersThen) !! "ANSWER"
  = Some "second".
Proof.
  refine (eq_trans
    (proj1 (proj2 (proj2 getSectionsByH3_duplicate_key))
       [Heading 3 "ANSWER" (String.append "### ANSWER" (String LF ""));
        Block paragraph (String.append "first" (String LF ""))]
       "ANSWER" (String.append "### ANSWER" (String LF ""))
       [Block paragraph (String.append "second" (String LF ""))]
       [Heading 3 "EXPLANATION" (String.append "### EXPLANATION" (String LF ""));
        Block paragraph "why"]
       _ _ _ _ _) _).
  - vm_compute. discriminate.
  - vm_compute. discriminate.
  - repeat constructor.
  - reflexivity.
  - vm_compute. intros H. inversion H as [|? ? ? H']; subst.
    inversion H'.
  - vm_compute. reflexivity.
Defined.

Lemma getSectionsByH3_body_witness :
  getSectionsByH3 (Marked.lexer sampleSolve) !! "EXPLANATION"
  = Some sampleExplanation.
Proof.
  refine (eq_trans
    (getSectionsByH3_body
       [Heading 3 "PROBLEM_TEXT" (String.append "### PROBLEM_TEXT" (String LF ""));
        Block paragraph (String.append "P" (String LF ""))]
       "EXPLANATION" (String.append "### EXPLANATION" (String LF ""))
       [Heading 4 "Step 1: A" (String.append "#### Step 1: A" (String LF ""));
        Block paragraph (String.append "C1" (String LF ""));
        Heading 4 "Step 2: B" (String.append "#### Step 2: B" (String LF ""));
        Block paragraph (String.append "C2" (String LF ""))]
       [Heading 3 "ANSWER" (String.append "### ANSWER" (String LF ""));
        Block paragraph "X"]
       _ _ _ _ _) _).
  - vm_compute. discriminate.
  - vm_compute. discriminate.
  - repeat constructor.
  - reflexivity.
  - vm_compute. intros H. inversion H as [|? ? ? H']; subst.
    inversion H'.
  - vm_compute. reflexivity.
Defined.

Lemma getSectionsByH3_preamble_witness :
  getSectionsByH3 (Block paragraph "lost" :: Marked.lexer sampleTwoAnswers)
  = getSectionsByH3 (Marked.lexer sampleTwoAnswers).
Proof.
  apply (getSectionsByH3_preamble [Block paragraph "lost"]).
  repeat constructor.
Defined.

Section AssemblerResults.

Variable lexer : string → list Token.

Lemma trim_nonempty s : trim s ≠ "" → s ≠ "".
Proof. by intros H ->. Qed.

(** A stem-free text followed by the separator is the first chunk. *)
Lemma split_cons_sep c s :
  indexOf STEM c = None →
  split SEPARATOR (c +:+ SEPARATOR +:+ s) = c :: split SEPARATOR s.
Proof.
  intros Hc.
  destruct (split_first SEPARATOR c (SEPARATOR +:+ s))
    as (rest & H1 & ->); [by apply indexOf_join |].
  assert (split SEPARATOR (SEPARATOR +:+ s) = "" :: split SEPARATOR s) as H2
    by apply split_at_sep.
  congruence.
Qed.

(** The chunks of stem-free texts joined by the separator are those
    texts. *)
Lemma split_joinWith chunks :
  chunks ≠ [] →
  Forall (λ c, indexOf STEM c = None) chunks →
  split SEPARATOR (joinWith SEPARATOR chunks) = chunks.
Proof.
  intros Hne Hall. induction Hall as [|c chunks Hc Hall IH]; [done |].
  destruct chunks as [|c' chunks].
  - simpl. by apply split_no_sep, indexOf_stem.
  - change (joinWith SEPARATOR (c :: c' :: chunks))
      with (c +:+ SEPARATOR +:+ joinWith SEPARATOR (c' :: chunks)).
    rewrite split_cons_sep by done. by rewrite IH.
Qed.

Lemma parseSolveResponse_empty_blank response :
  problems (parseSolveResponse lexer response) = [] → trim response = "".
Proof.
  unfold parseSolveResponse.
  destruct (length _ =? 0)%nat eqn:E; simpl.
  - destruct (truthy (trim response)) eqn:Ht; simpl; [done |].
    intros _. by destruct (trim response).
  - intros H. rewrite H in E. done.
Qed.

(** [parseSolveResponse] returns no problem exactly for a blank
    response. *)
Theorem parseSolveResponse_empty_iff response :
  problems (parseSolveResponse lexer response) = [] ↔ trim response = "".
Proof.
  split; [apply parseSolveResponse_empty_blank |].
  unfold parseSolveResponse.
  - intros Hblank. rewrite split_whitespace by done. simpl.
    unfold parseChunk. by rewrite Hblank.
Qed.

(** A response made of stem-free chunks joined by the separator gives the
    problems of its chunks, in order; a chunk that is blank or has none of
    the three sections gives none. *)
Theorem parseSolveResponse_chunks chunks :
  Forall (λ c, indexOf STEM c = None) chunks →
  omap (parseChunk lexer) chunks ≠ [] →
  parseSolveResponse lexer (joinWith SEPARATOR chunks)
  = mkSolve (omap (parseChunk lexer) chunks).
Proof.
  intros Hall Hsome. unfold parseSolveResponse.
  rewrite split_joinWith by (done || by intros ->).
  destruct (omap (parseChunk lexer) chunks); done.
Qed.

(** Every problem of the result has a problem text, an explanation or an
    answer, and has steps exactly when it has an explanation. *)
Theorem parseSolveResponse_record_shape response r :
  r ∈ problems (parseSolveResponse lexer response) →
  (problem r ≠ "" ∨ explanation r ≠ "" ∨ answer r ≠ "")
  ∧ (steps r = [] ↔ explanation r = "").
Proof.
  intros Hr.
  assert (trim response ≠ "") as Hresp.
  { intros Hblank.
    assert (problems (parseSolveResponse lexer response) = []) as H.
    { unfold parseSolveResponse. rewrite split_whitespace by done. simpl.
      unfold parseChunk. by rewrite Hblank. }
    rewrite H in Hr. by apply elem_of_nil in Hr. }
  apply parseSolveResponse_elem in Hr as [(chunk & _ & Hr)| ->].
  - pose proof (parseChunk_trimmed _ _ _ Hr) as (_ & He & _).
    apply parseChunk_Some in Hr as (_ & _ & _ & _ & Hs & Hor).
    split; [done |]. rewrite Hs. split.
    + intros Hnil. destruct (decide (explanation r = "")) as [|Hne]; [done |].
      exfalso. apply (parseSteps_nonempty lexer (explanation r)); [| done].
      by rewrite He.
    + by intros ->.
  - split; [by left |]. simpl. split; [done |].
    intros ->. done.
Qed.

(** The fields of an improved answer are trimmed, one of the two texts is
    not empty, and there are steps exactly when there is an explanation. *)
Theorem parseImproveResponse_shape response i :
  parseImproveResponse lexer response = Some i →
  trimmed (improved_answer i) ∧ trimmed (improved_explanation i)
  ∧ Forall trimmedStep (improved_steps i)
  ∧ (improved_answer i ≠ "" ∨ improved_explanation i ≠ "")
  ∧ (improved_steps i = [] ↔ improved_explanation i = "").
Proof.
  unfold parseImproveResponse, sectionsOf.
  set (e := orEmpty (_ !! "IMPROVED_EXPLANATION")).
  set (a := orEmpty (_ !! "IMPROVED_ANSWER")).
  assert (trimmed e) as He by apply getSectionsByH3_trimmed.
  assert (trimmed a) as Ha by apply getSectionsByH3_trimmed.
  destruct (negb (truthy e) && negb (truthy a)) eqn:Hboth; [done |].
  intros [= <-]. simpl. split_and!; try done.
  - apply parseSteps_trimmed.
  - destruct e, a; auto; discriminate Hboth.
  - split; [| by intros ->].
    intros Hnil. destruct (decide (e = "")) as [|Hne]; [done |].
    exfalso. apply (parseSteps_nonempty lexer e); [| done]. by rewrite He.
Qed.

(** A response and the same response inside a fence give the same improved
    answer, or both fail, unless the response is itself of the shape the
    fence expression accepts. *)
Theorem parseImproveResponse_fenced tag body :
  allChars isWordChar tag = true →
  wrapperShaped (trim body) = false →
  parseImproveResponse lexer (wrapFence tag body)
  = parseImproveResponse lexer body.
Proof.
  intros Htag Hshape. unfold parseImproveResponse, sectionsOf.
  rewrite trimMarkdownFence_wrapFence by done.
  by rewrite (trimMarkdownFence_unshaped body).
Qed.

End AssemblerResults.

Lemma parseSolveResponse_chunks_witness :
  parseSolveResponse Marked.lexer
    (joinWith SEPARATOR [""; sampleTwoAnswers; "  "; "no section"; sampleSolve; ""])
  = mkSolve [mkProblem "" "" "second" [];
             mkProblem "P" sampleExplanation "X"
               [mkStep "Step 1: A" "C1"; mkStep "Step 2: B" "C2"]].
Proof.
  refine (eq_trans
    (parseSolveResponse_chunks Marked.lexer
       [""; sampleTwoAnswers; "  "; "no section"; sampleSolve; ""] _ _) _).
  - repeat constructor.
  - vm_compute. discriminate.
  - vm_compute. reflexivity.
Defined.

Lemma parseSolveResponse_record_shape_witness :
  let r := mkProblem "" "" "second" [] in
  r ∈ problems (parseSolveResponse Marked.lexer sampleTwoAnswers)
  ∧ (problem r ≠ "" ∨ explanation r ≠ "" ∨ answer r ≠ "")
  ∧ (steps r = [] ↔ explanation r = "").
Proof.
  intros r.
  assert (r ∈ problems (parseSolveResponse Marked.lexer sampleTwoAnswers))
    as Hin by (vm_compute; constructor).
  split; [exact Hin |].
  exact (parseSolveResponse_record_shape Marked.lexer sampleTwoAnswers r Hin).
Defined.

Lemma parseImproveResponse_shape_witness :
  let i := mkImprove "42" "because" [mkStep "Detailed Explanation" "because"] in
  parseImproveResponse Marked.lexer
    (joinLines ["### IMPROVED_ANSWER"; " 42 "; "### IMPROVED_EXPLANATION";
                "because"]) = Some i
  ∧ trimmed (improved_answer i)
  ∧ (improved_steps i = [] ↔ improved_explanation i = "").
Proof.
  intros i.
  assert (parseImproveResponse Marked.lexer
            (joinLines ["### IMPROVED_ANSWER"; " 42 ";
                        "### IMPROVED_EXPLANATION"; "because"]) = Some i)
    as Hi by (vm_compute; reflexivity).
  split; [exact Hi |].
  pose proof (parseImproveResponse_shape Marked.lexer _ i Hi)
    as (Ha & _ & _ & _ & Hs).
  by split.
Defined.

Lemma parseImproveResponse_fenced_witness :
  parseImproveResponse Marked.lexer
    (wrapFence "md" (joinLines ["### IMPROVED_ANSWER"; "42"]))
  = Some (mkImprove "42" "" []).
Proof.
  refine (eq_trans
    (parseImproveResponse_fenced Marked.lexer "md"
       (joinLines ["### IMPROVED_ANSWER"; "42"]) _ _) _);
    vm_compute; reflexivity.
Defined.

(** * Properties of the OpenAI client *)

Section OpenAiResults.

Import OpenAi.

(** [normalizeBaseUrl] removes exactly one slash from the end of the URL
    and leaves a URL without one as it is; without a URL it gives the
    default root. *)
Theorem normalizeBaseUrl_slash :
  (∀ url, normalizeBaseUrl (Some (url +:+ "/")) = url)
  ∧ (∀ url, endsWith "/" url = false → normalizeBaseUrl (Some url) = url)
  ∧ normalizeBaseUrl None = DEFAULT_OPENAI_ROOT.
Proof.
  split_and!.
  - intros url. unfold normalizeBaseUrl. simpl. by rewrite stripSuffix_app.
  - intros url. unfold normalizeBaseUrl, endsWith. simpl.
    by destruct (stripSuffix "/" url).
  - vm_compute. reflexivity.
Qed.

Lemma collectOutputText_trimmed output : trimmed (collectOutputText output).
Proof. destruct output; [apply trimmed_trim | done]. Qed.

Lemma extractTextFromResponse_fixed response :
  trim (extractTextFromResponse response) = extractTextFromResponse response.
Proof.
  unfold extractTextFromResponse.
  destruct (output_text response) as [t|];
    [| apply collectOutputText_trimmed].
  destruct (_ && _); [apply trimmed_trim | apply collectOutputText_trimmed].
Qed.

(** The text extracted from a final response is trimmed; a non-empty
    [output_text] is used, trimmed, whatever [output] holds, even when it
    is blank. *)
Theorem extractTextFromResponse_trimmed response :
  trimmed (extractTextFromResponse response)
  ∧ (∀ t, output_text response = Some t → t ≠ "" →
          extractTextFromResponse response = trim t)
  ∧ (output_text response = None ∨ output_text response = Some "" →
     extractTextFromResponse response = collectOutputText (output response)).
Proof.
  split_and!; [apply extractTextFromResponse_fixed | |];
    unfold extractTextFromResponse.
  - intros t -> Hne. by destruct t.
  - by intros [-> | ->].
Qed.

(** The loop on events that all pass: every delta is delivered and
    aggregated, in order. *)
Lemma streamLoop_passes maxPollMs startTime events aggregated done :
  Forall (passes maxPollMs startTime) events →
  streamLoop maxPollMs startTime events aggregated done
  = mkOutcome (done ++ deltasOf events) false
      (Returned (aggregated +:+ concat (deltasOf events))).
Proof.
  intros Hall. revert aggregated done.
  induction Hall as [|[event now] events [Herr Htime] _ IH];
    intros aggregated done.
  { simpl. by rewrite app_nil_r, List.app_nil_r. }
  simpl in Herr, Htime. cbn [streamLoop].
  assert ((maxPollMs <? now - startTime)%Z = false) as ->
    by (apply Z.ltb_ge; lia).
  unfold deltasOf. cbn [omap list_omap fst]. fold (deltasOf events).
  destruct (deltaOf event) as [d|].
  - rewrite IH. simpl. by rewrite <- List.app_assoc, app_assoc.
  - by rewrite Herr, IH.
Qed.

(** When no event is an error and the clock stays within [maxPollMs], the
    call returns; every delta has been passed to the callback, in order;
    the value is the trimmed concatenation of the deltas or, when that is
    empty, the text of the final response. *)
Theorem receive_value maxPollMs startTime events finalResponse :
  Forall (passes maxPollMs startTime) events →
  receive maxPollMs startTime events finalResponse
  = mkOutcome (deltasOf events) false
      (Returned
         (if truthy (concat (deltasOf events))
          then trim (concat (deltasOf events))
          else extractTextFromResponse finalResponse)).
Proof.
  intros Hall. unfold receive. rewrite streamLoop_passes by done. simpl.
  destruct (truthy (concat (deltasOf events))); [done |].
  by rewrite extractTextFromResponse_fixed.
Qed.

(** The first iteration that does not pass ends the call with an error:
    the message of the error event (or the default one), or the timeout
    after aborting the request.  The deltas up to there have been
    delivered, that of the failing iteration included; the events after it
    are not read. *)
Theorem receive_throws maxPollMs startTime good event now rest finalResponse :
  Forall (passes maxPollMs startTime) good →
  ¬ passes maxPollMs startTime (event, now) →
  receive maxPollMs startTime (good ++ (event, now) :: rest) finalResponse
  = if isError event
    then mkOutcome (deltasOf good) false
           (Threw (default "OpenAI streaming error" (errorMessage event)))
    else mkOutcome (deltasOf good ++ option_list (deltaOf event)) true
           (Threw "OpenAI response polling timed out").
Proof.
  intros Hgood Hbad. unfold receive.
  assert (∀ aggregated done,
    streamLoop maxPollMs startTime (good ++ (event, now) :: rest) aggregated done
    = streamLoop maxPollMs startTime ((event, now) :: rest)
        (aggregated +:+ concat (deltasOf good)) (done ++ deltasOf good)) as ->.
  { induction Hgood as [|[e n] good [Herr Htime] _ IH]; intros aggregated done.
    { simpl. by rewrite app_nil_r, List.app_nil_r. }
    simpl in Herr, Htime. cbn [app streamLoop].
    assert ((maxPollMs <? n - startTime)%Z = false) as ->
      by (apply Z.ltb_ge; lia).
    unfold deltasOf. cbn [omap list_omap fst]. fold (deltasOf good).
    destruct (deltaOf e) as [d|].
    - rewrite IH. simpl. by rewrite <- List.app_assoc, app_assoc.
    - by rewrite Herr, IH. }
  cbn [streamLoop]. unfold passes in Hbad. simpl in Hbad.
  destruct (deltaOf event) as [d|] eqn:Hd.
  - assert (isError event = false) as Herr.
    { unfold deltaOf, isError in *. destruct (type event) as [ty|]; [| done].
      destruct (String.eqb ty "response.output_text.delta") eqn:E; [| done].
      by apply String.eqb_eq in E as ->. }
    rewrite Herr.
    assert ((maxPollMs <? now - startTime)%Z = true) as ->
      by (apply Z.ltb_lt; apply Z.nle_gt; intros ?; by apply Hbad).
    done.
  - destruct (isError event) eqn:Herr; [done |].
    assert ((maxPollMs <? now - startTime)%Z = true) as ->
      by (apply Z.ltb_lt; apply Z.nle_gt; intros ?; by apply Hbad).
    simpl. by rewrite List.app_nil_r.
Qed.

End OpenAiResults.

Lemma normalizeBaseUrl_slash_witness :
  endsWith "/" "http://localhost:1234/v1" = false
  ∧ OpenAi.normalizeBaseUrl (Some "http://localhost:1234/v1")
    = "http://localhost:1234/v1".
Proof.
  split; [reflexivity |].
  exact (proj1 (proj2 normalizeBaseUrl_slash) "http://localhost:1234/v1" eq_refl).
Defined.

Lemma extractTextFromResponse_trimmed_witness :
  OpenAi.extractTextFromResponse
    (OpenAi.mkFinal (Some "  ")
       (Some [OpenAi.mkOutput (Some [OpenAi.mkContent (Some "text")])]))
  = "".
Proof.
  refine (eq_trans
    (proj1 (proj2 (extractTextFromResponse_trimmed
       (OpenAi.mkFinal (Some "  ")
          (Some [OpenAi.mkOutput (Some [OpenAi.mkContent (Some "text")])]))))
       "  " eq_refl _) _).
  - discriminate.
  - reflexivity.
Defined.

Lemma receive_value_witness :
  OpenAi.receive 30000 1000
    [(OpenAi.mkEvent (Some "response.created") None None, 1200%Z);
     (OpenAi.mkEvent (Some "response.output_text.delta") (Some " ab") None, 1500%Z);
     (OpenAi.mkEvent (Some "response.output_text.delta") (Some "c ") None, 31000%Z)]
    (OpenAi.mkFinal None None)
  = OpenAi.mkOutcome [" ab"; "c "] false (OpenAi.Returned "abc").
Proof.
  refine (eq_trans (receive_value 30000 1000 _ _ _) _).
  - repeat constructor; simpl; lia.
  - vm_compute. reflexivity.
Defined.

Lemma receive_throws_witness :
  OpenAi.receive 30000 1000
    [(OpenAi.mkEvent (Some "response.output_text.delta") (Some "ab") None, 1500%Z);
     (OpenAi.mkEvent (Some "response.output_text.delta") (Some "cd") None, 31001%Z);
     (OpenAi.mkEvent (Some "response.output_text.delta") (Some "ef") None, 31002%Z)]
    (OpenAi.mkFinal None None)
  = OpenAi.mkOutcome ["ab"; "cd"] true
      (OpenAi.Threw "OpenAI response polling timed out").
Proof.
  refine (eq_trans
    (receive_throws 30000 1000
       [(OpenAi.mkEvent (Some "response.output_text.delta") (Some "ab") None, 1500%Z)]
       (OpenAi.mkEvent (Some "response.output_text.delta") (Some "cd") None)
       31001%Z
       [(OpenAi.mkEvent (Some "response.output_text.delta") (Some "ef") None, 31002%Z)]
       (OpenAi.mkFinal None None) _ _) _).
  - repeat constructor; simpl; lia.
  - intros [_ H]. simpl in H. lia.
  - vm_compute. reflexivity.
Defined.

Section ChatInputResults.

Import OpenAiInput.

(** [sendChat] sends no blank message: after the optional system prompt,
    every item of the request holds exactly one text, trimmed and not
    empty; messages whose content is missing or blank leave no item. *)
Theorem chatInput_items systemPrompt messages :
  (∀ item, item ∈ chatInput None messages →
           ∃ t, content item = [input_text t] ∧ t ≠ "" ∧ trimmed t)
  ∧ (Forall (λ m, trim (orEmpty (ChatTypes.content m)) = "") messages →
     chatInput systemPrompt messages = systemInput systemPrompt).
Proof.
  split; [apply Forall_forall |].
  - apply Forall_forall. intros item (m & _ & Hm)%list_elem_of_omap.
    unfold chatItem in Hm. destruct (ChatTypes.content m) as [c|]; [| done].
    simpl in Hm. destruct (truthy (trim c)) eqn:Ht; [| done].
    injection Hm as <-. exists (trim c). simpl.
    split_and!; [done | by apply truthy_true | apply trimmed_trim].
  - intros Hblank. unfold chatInput.
    assert (omap chatItem messages = []) as ->; [| by rewrite List.app_nil_r].
    induction Hblank as [|m messages Hm _ IH]; [done |].
    assert (chatItem m = None) as Hnone.
    { unfold chatItem. destruct (ChatTypes.content m) as [c|]; [| done].
      simpl in *. by rewrite Hm. }
    simpl. by rewrite Hnone.
Qed.

End ChatInputResults.

Lemma chatInput_items_witness :
  OpenAiInput.chatInput (Some "be brief")
    [ChatTypes.mkMessage "user" (Some "  "); ChatTypes.mkMessage "tool" None]
  = [OpenAiInput.mkItem OpenAiInput.system [OpenAiInput.input_text "be brief"]].
Proof.
  refine (eq_trans
    (proj2 (chatInput_items (Some "be brief")
       [ChatTypes.mkMessage "user" (Some "  "); ChatTypes.mkMessage "tool" None])
       _) _).
  - repeat constructor.
  - reflexivity.
Defined.


(** * Properties of the native camera hook *)

Section CameraResults.

Import NativeCamera.

Implicit Types (p : Platform) (photo : Photo).

Lemma split_slash_cons_slash s : split "/" (String "/" s) = "" :: split "/" s.
Proof. unfold split. cbn [split_go String.prefix]. by destruct s. Qed.

Lemma split_slash_cons_other b s :
  b ≠ "/"%char →
  split "/" (String b s)
  = match split "/" s with
    | h :: t => String b h :: t
    | [] => [String b ""]
    end.
Proof.
  intros Hb. unfold split. cbn [split_go String.prefix].
  destruct (ascii_dec "/" b) as [<-|]; done.
Qed.

Lemma endsWith_cons_keep t c s :
  endsWith t s = true → endsWith t (String c s) = true.
Proof.
  unfold endsWith. rewrite stripSuffix_cons.
  destruct (String.eqb (String c s) t); [done |].
  by destruct (stripSuffix t s).
Qed.

(** The last chunk of a path split at the slashes is what follows the
    last slash. *)
Lemma split_slash_last s :
  ∃ dir file,
    s = dir +:+ file ∧ allChars notSlash file = true
    ∧ ((dir = "" ∧ split "/" s = [file])
       ∨ (endsWith "/" dir = true
          ∧ ∃ first rest, split "/" s = first :: rest ∧ last rest = Some file)).
Proof.
  induction s as [|b s (dir & file & Hs & Hfile & Hcase)].
  { exists "", "". split_and!; [done | done | by left]. }
  destruct (ascii_dec b "/") as [->|Hb].
  - exists (String "/" dir), file. rewrite split_slash_cons_slash.
    split_and!; [by rewrite Hs | done |]. right. split.
    + destruct Hcase as [[-> _]|[Hd _]]; [done | by apply endsWith_cons_keep].
    + exists "", (split "/" s). split; [done |].
      destruct Hcase as [[_ ->]|(_ & first & rest & -> & Hl)]; [done |].
      rewrite last_cons. by rewrite Hl.
  - rewrite split_slash_cons_other by done.
    destruct Hcase as [[-> Hsplit]|(Hd & first & rest & Hsplit & Hl)];
      rewrite Hsplit.
    + exists "", (String b file). split_and!; [by rewrite Hs | | by left].
      simpl. rewrite Hfile. unfold notSlash.
      by apply Ascii.eqb_neq in Hb as ->.
    + exists (String b dir), file. split_and!; [by rewrite Hs | done |].
      right. split; [by apply endsWith_cons_keep | eauto].
Qed.

Lemma convertToFile_url p photo u :
  match webPath photo with Some w => Some w | None => path photo end = Some u →
  u ≠ "" →
  convertToFile p photo
  = ([Fetch u],
     Some (mkFile
             (default ("photo-" +:+ numberToString (now p) +:+ "."
                       +:+ default "jpeg" (split "/" (fetchBlobType p u) !! 1))
                      (path photo ≫= λ path, last (split "/" path)))
             (fetchBlobType p u))).
Proof.
  intros Hu Hne%truthy_true. unfold convertToFile. rewrite Hu, Hne. done.
Qed.

Lemma convertToFile_Some p photo f :
  (convertToFile p photo).2 = Some f →
  ∃ u, match webPath photo with Some w => Some w | None => path photo end
       = Some u ∧ u ≠ "".
Proof.
  unfold convertToFile.
  destruct (match webPath photo with Some w => Some w | None => path photo end)
    as [u|]; [| done].
  destruct u; [done | eauto].
Qed.

(** [convertToFile] only fetches. *)
Lemma convertToFile_trace p photo c :
  c ∈ (convertToFile p photo).1 → ∃ u, c = Fetch u.
Proof.
  unfold convertToFile.
  destruct (match webPath photo with Some w => Some w | None => path photo end)
    as [u|]; [| by intros H%elem_of_nil].
  destruct (truthy u); simpl; [| by intros H%elem_of_nil].
  intros ->%list_elem_of_singleton. eauto.
Qed.

(** [convertToFile] gives no file exactly when the photo has no usable
    URL: its [webPath] is empty, or is missing while its [path] is missing
    or empty; nothing is fetched then.  Otherwise it fetches that URL once
    and the file has the MIME type of the blob. *)
Theorem convertToFile_null_iff p photo :
  let url := match webPath photo with Some w => Some w | None => path photo end in
  ((convertToFile p photo).2 = None ↔ url = None ∨ url = Some "")
  ∧ ((convertToFile p photo).2 = None → (convertToFile p photo).1 = [])
  ∧ (∀ f, (convertToFile p photo).2 = Some f →
          ∃ u, url = Some u ∧ (convertToFile p photo).1 = [Fetch u]
               ∧ type f = fetchBlobType p u).
Proof.
  intros url. unfold convertToFile. fold url.
  destruct url as [u|]; [| split_and!; [split; auto | done | done]].
  destruct u as [|c u]; [split_and!; [split; auto | done | done] |].
  simpl. split_and!.
  - split; [done | intros [[=]|[=]]].
  - done.
  - intros f [= <-]. eauto.
Qed.

(** When the photo has a path, the file is named by what follows the last
    slash of the path (the whole path when it has no slash, the empty name
    when it ends with a slash). *)
Theorem convertToFile_name p photo path0 f :
  path photo = Some path0 →
  (convertToFile p photo).2 = Some f →
  ∃ dir, path0 = dir +:+ name f
         ∧ allChars notSlash (name f) = true
         ∧ (dir = "" ∨ endsWith "/" dir = true).
Proof.
  intros Hpath Hf.
  destruct (convertToFile_Some p photo f Hf) as (u & Hu & Hne).
  rewrite (convertToFile_url p photo u Hu Hne) in Hf.
  injection Hf as <-. simpl. rewrite Hpath. simpl.
  destruct (split_slash_last path0) as (dir & file & Hs & Hfile & Hcase).
  exists dir.
  destruct Hcase as [[-> Hsplit]|(Hd & first & rest & Hsplit & Hl)];
    rewrite Hsplit.
  - simpl. auto.
  - rewrite last_cons, Hl. simpl. auto.
Qed.

Lemma indexOf_slash_none s :
  allChars notSlash s = true → indexOf "/" s = None.
Proof.
  induction s as [|c s IH]; [done |].
  simpl. intros [Hc Hs]%andb_true_iff. apply indexOf_cons; [| by apply IH].
  cbn [String.prefix]. destruct (ascii_dec "/" c) as [<-|]; done.
Qed.

Lemma split_slash_two s rest :
  allChars notSlash s = true → allChars notSlash rest = true →
  split "/" (s +:+ "/" +:+ rest) = [s; rest].
Proof.
  intros Hs Hrest.
  assert (split "/" ("/" +:+ rest) = ["" ; rest]) as H2.
  { change ("/" +:+ rest) with (String "/" rest).
    rewrite split_slash_cons_slash.
    by rewrite (split_no_sep "/" rest) by by apply indexOf_slash_none. }
  induction s as [|c s IH]; [done |].
  simpl in Hs. apply andb_true_iff in Hs as [Hc Hs].
  change (String c s +:+ "/" +:+ rest) with (String c (s +:+ "/" +:+ rest)).
  rewrite split_slash_cons_other, IH; [done | done |].
  unfold notSlash in Hc. apply negb_true_iff in Hc.
  by apply Ascii.eqb_neq in Hc.
Qed.

(** When the photo has no path, the file is named [photo-<time>.<ext>]:
    [<ext>] is the subtype of the blob's MIME type, or [jpeg] when the
    type has no slash. *)
Theorem convertToFile_fallback_name p photo u :
  webPath photo = Some u → path photo = None → u ≠ "" →
  (∀ kind sub,
     allChars notSlash kind = true → allChars notSlash sub = true →
     fetchBlobType p u = kind +:+ "/" +:+ sub →
     (convertToFile p photo).2
     = Some (mkFile ("photo-" +:+ numberToString (now p) +:+ "." +:+ sub)
                    (kind +:+ "/" +:+ sub)))
  ∧ (allChars notSlash (fetchBlobType p u) = true →
     (convertToFile p photo).2
     = Some (mkFile ("photo-" +:+ numberToString (now p) +:+ ".jpeg")
                    (fetchBlobType p u))).
Proof.
  intros Hweb Hpath Hne.
  rewrite (convertToFile_url p photo u) by (by rewrite ?Hweb).
  rewrite Hpath. simpl. split.
  - intros kind sub Hk Hsub ->.
    change (String "/" sub) with ("/" +:+ sub).
    by rewrite split_slash_two.
  - intros Hno. by rewrite split_no_sep by by apply indexOf_slash_none.
Qed.

Lemma capture_not_native p :
  isNativePlatform p = false → capture p = ([], []).
Proof. intros Hn. unfold capture. by rewrite Hn. Qed.

Lemma capture_granted p :
  isNativePlatform p = true → granted (checkPermissions p) = true →
  capture p
  = (CheckPermissions :: GetPhoto :: (convertToFile p (getPhoto p)).1,
     option_list (convertToFile p (getPhoto p)).2).
Proof.
  intros Hn Hc. unfold capture, ensurePermissions. rewrite Hn. simpl.
  rewrite Hc. simpl.
  destruct (convertToFile p (getPhoto p)) as [calls [f|]]; simpl;
    by rewrite List.app_nil_r.
Qed.

Lemma capture_requested p :
  isNativePlatform p = true → granted (checkPermissions p) = false →
  granted (requestPermissions p) = true →
  capture p
  = (CheckPermissions :: RequestPermissions :: GetPhoto
       :: (convertToFile p (getPhoto p)).1,
     option_list (convertToFile p (getPhoto p)).2).
Proof.
  intros Hn Hc Hr. unfold capture, ensurePermissions. rewrite Hn. simpl.
  rewrite Hc. simpl. rewrite Hr. simpl.
  destruct (convertToFile p (getPhoto p)) as [calls [f|]]; simpl;
    by rewrite List.app_nil_r.
Qed.

Lemma capture_denied p :
  isNativePlatform p = true → granted (checkPermissions p) = false →
  granted (requestPermissions p) = false →
  capture p = ([CheckPermissions; RequestPermissions], []).
Proof.
  intros Hn Hc Hr. unfold capture, ensurePermissions. rewrite Hn. simpl.
  rewrite Hc. simpl. by rewrite Hr.
Qed.

(** [capture] opens the camera only on a native platform and with a
    permission granted, asks for permission only when the check did not
    grant one, touches nothing when the platform is not native, and
    returns at most one file, taken from the camera. *)
Theorem capture_calls p :
  (isNativePlatform p = false → capture p = ([], []))
  ∧ (GetPhoto ∈ (capture p).1 →
     isNativePlatform p = true
     ∧ (granted (checkPermissions p) = true
        ∨ granted (requestPermissions p) = true))
  ∧ (RequestPermissions ∈ (capture p).1 →
     granted (checkPermissions p) = false)
  ∧ (length (capture p).2 ≤ 1)%nat
  ∧ ((capture p).2 ≠ [] → GetPhoto ∈ (capture p).1).
Proof.
  split; [apply capture_not_native |].
  destruct (isNativePlatform p) eqn:Hn.
  2: { rewrite capture_not_native by done. simpl.
       split_and!; try done; try lia; by intros H%elem_of_nil. }
  destruct (granted (checkPermissions p)) eqn:Hc.
  - rewrite capture_granted by done. simpl. split_and!.
    + auto.
    + intros [[=]|[[=]|H]%elem_of_cons]%elem_of_cons.
      by apply convertToFile_trace in H as [u [=]].
    + destruct (convertToFile p (getPhoto p)).2; simpl; lia.
    + intros _. set_solver.
  - destruct (granted (requestPermissions p)) eqn:Hr.
    + rewrite capture_requested by done. simpl. split_and!.
      * auto.
      * done.
      * destruct (convertToFile p (getPhoto p)).2; simpl; lia.
      * intros _. set_solver.
    + rewrite capture_denied by done. simpl. split_and!; try done; try lia.
      intros [[=]|[[=]|H%elem_of_nil]%elem_of_cons]%elem_of_cons. done.
Qed.

(** [runCameraFlow] does nothing while work is in progress.  Otherwise it
    either hands the captured file to the page as a camera file or opens
    the file input, never both: the input is the fallback whenever
    [capture] gives no file, in particular when both permissions are
    denied, and then the camera is not opened. *)
Theorem runCameraFlow_outcome p :
  runCameraFlow true p = ([], [])
  ∧ runCameraFlow false p
    = ((capture p).1,
       match (capture p).2 with
       | [] => [ClickCameraInput]
       | files => [AppendFiles files "camera"]
       end)
  ∧ (isNativePlatform p = true →
     granted (checkPermissions p) = false →
     granted (requestPermissions p) = false →
     runCameraFlow false p
     = ([CheckPermissions; RequestPermissions], [ClickCameraInput])).
Proof.
  split_and!; [done | |].
  - unfold runCameraFlow. destruct (isNativePlatform p) eqn:Hn; simpl.
    + destruct (capture p) as [calls [|f files]]; simpl;
        by rewrite List.app_nil_r.
    + by rewrite capture_not_native.
  - intros Hn Hc Hr. unfold runCameraFlow, capture, ensurePermissions.
    rewrite Hn. simpl. rewrite Hc. simpl. by rewrite Hr.
Qed.

End CameraResults.

Lemma convertToFile_null_iff_witness :
  (NativeCamera.convertToFile samplePlatform
     (NativeCamera.mkPhoto (Some "") (Some "file:///data/IMG_2.jpg"))).2 = None.
Proof.
  apply (proj1 (convertToFile_null_iff samplePlatform
           (NativeCamera.mkPhoto (Some "") (Some "file:///data/IMG_2.jpg")))).
  by right.
Defined.

Lemma convertToFile_name_witness :
  let f := NativeCamera.mkFile "IMG_1.jpg" "image/jpeg" in
  NativeCamera.path samplePhoto = Some "file:///data/cache/IMG_1.jpg"
  ∧ (NativeCamera.convertToFile samplePlatform samplePhoto).2 = Some f
  ∧ ∃ dir, "file:///data/cache/IMG_1.jpg" = dir +:+ NativeCamera.name f
           ∧ allChars notSlash (NativeCamera.name f) = true
           ∧ (dir = "" ∨ endsWith "/" dir = true).
Proof.
  intros f.
  assert (NativeCamera.path samplePhoto = Some "file:///data/cache/IMG_1.jpg")
    as H1 by reflexivity.
  assert ((NativeCamera.convertToFile samplePlatform samplePhoto).2 = Some f)
    as H2 by (vm_compute; reflexivity).
  split_and!; [exact H1 | exact H2 |].
  exact (convertToFile_name samplePlatform samplePhoto _ f H1 H2).
Defined.

Lemma convertToFile_fallback_name_witness :
  (NativeCamera.convertToFile samplePlatformNoPath
     (NativeCamera.getPhoto samplePlatformNoPath)).2
  = Some (NativeCamera.mkFile "photo-1730592000123.png" "image/png").
Proof.
  refine (eq_trans
    (proj1 (convertToFile_fallback_name samplePlatformNoPath
              (NativeCamera.getPhoto samplePlatformNoPath) "blob:capacitor/1"
              eq_refl eq_refl _)
       "image" "png" eq_refl eq_refl eq_refl) _).
  - discriminate.
  - vm_compute. reflexivity.
Defined.

Lemma capture_calls_witness :
  NativeCamera.GetPhoto ∈ (NativeCamera.capture samplePlatform).1
  ∧ NativeCamera.isNativePlatform samplePlatform = true
  ∧ (NativeCamera.granted (NativeCamera.checkPermissions samplePlatform) = true
     ∨ NativeCamera.granted (NativeCamera.requestPermissions samplePlatform)
       = true).
Proof.
  assert (NativeCamera.GetPhoto ∈ (NativeCamera.capture samplePlatform).1) as H.
  { vm_compute. do 2 constructor 2. constructor. }
  split; [exact H |].
  exact (proj1 (proj2 (capture_calls samplePlatform)) H).
Defined.

Lemma runCameraFlow_outcome_witness :
  let p := NativeCamera.mkPlatform true
             (NativeCamera.mkStatus "denied" "denied")
             (NativeCamera.mkStatus "denied" "prompt")
             samplePhoto (λ _, "image/jpeg") 0 in
  NativeCamera.runCameraFlow false p
  = ([NativeCamera.CheckPermissions; NativeCamera.RequestPermissions],
     [NativeCamera.ClickCameraInput]).
Proof.
  intros p.
  exact (proj2 (proj2 (runCameraFlow_outcome p)) eq_refl eq_refl eq_refl).
Defined.

(** * A further property of the fence stripper *)

(** The output of the fence stripper is trimmed, and stripping it again
    changes nothing unless the output is itself of the shape the fence
    expression accepts (a text that was fenced twice). *)
Theorem trimMarkdownFence_again content :
  trimmed (trimMarkdownFence content)
  ∧ (wrapperShaped (trimMarkdownFence content) = false →
     trimMarkdownFence (trimMarkdownFence content) = trimMarkdownFence content).
Proof.
  assert (trimmed (trimMarkdownFence content)) as Ht.
  { unfold trimMarkdownFence.
    destruct (matchFence (trim content)); apply trimmed_trim. }
  split; [exact Ht |].
  intros Hshape. rewrite trimMarkdownFence_unshaped; by rewrite Ht.
Qed.

Lemma trimMarkdownFence_again_witness :
  trimMarkdownFence (trimMarkdownFence (wrapFence "md" sampleTwoAnswers))
  = sampleTwoAnswers.
Proof.
  refine (eq_trans
    (proj2 (trimMarkdownFence_again (wrapFence "md" sampleTwoAnswers)) _) _);
    vm_compute; reflexivity.
Defined.
